(* ===== verification/_CoqProject ===== *)
-Q . S2P
Prelude.v
Text.v
Controller.v
QuerySpec.v
Catalog.v
Endpoints.v
Routes.v
Http.v
Api.v
Server.v
Ingestion.v
