(* ===== verification/Prelude.v ===== *)
(** * The product controller of auto-post: a verification development

    ** The program

    The sources are one file,
    [src/backend/src/products/products.controller.ts]: the NestJS class
    [ProductsController].  Its constructor stores an injected
    [ProductsService]; its two handlers build their argument and return
    what the service returns:

    - [findAll(search?, marketplace?)], routed by [@Get()] under
      [@Controller('products')], its parameters bound by
      [@Query('search')] and [@Query('marketplace')], returns
      [productsService.findAll({ search, marketplace })];
    - [findOne(id)], routed by [@Get(':id')], its parameter bound by
      [@Param('id')], returns [productsService.findOne(id)].

    The service, the framework that routes requests, and the data source
    behind the service are not in the sources.  The specification states
    the contract of the service ("Product Query Service": listing with an
    optional case-insensitive substring search and an optional marketplace
    filter, lookup by identifier with a not-found error) and the HTTP
    surface (GET /products, GET /products/:id).

    ** The files, in dependency order

    - [Prelude] (this file): the notation scope [pq_scope], the hint
      databases [pq] (auto) and [pq_str] (rewriting of string expressions),
      the tactic [bool_prop], and the lemmas the components share: string
      append, [String.prefix], [List.find], [filter], the greatest sublist
      that satisfies a predicate, lists with distinct keys, and runs of a
      step relation under a measure that every step decreases.
    - [Text]: [toLowerCase] and [includes], the string operations of a
      case-insensitive substring search; [Substring], which [includes]
      decides; [ci_equiv], equality up to case.  Modelled from the
      specification.
    - [Controller]: the source.  [FindAllQuery] is the object literal of
      line 13, [ProductsService] the interface of the injected service
      (a type class: the two methods called on lines 13 and 18, with the
      result types as parameters), [ProductsController] the class with its
      constructor field (lines 5-6), [new] the constructor (line 6),
      [findAll] and [findOne] the handlers (lines 9-14, 17-19).
    - [QuerySpec]: the data of the service ([Product], [ServiceError],
      [Outcome]: a call resolved to a value or rejected with an error), the
      filter as a proposition ([Matches]), the specification of the two
      operations as relations ([listProducts_spec], [getProduct_spec])
      between what reading the data source yields, the argument and the
      result, and the contract [ProductQueryService]: a [ProductsService]
      with an abstraction function [dataSource] whose operations satisfy
      the relations.  Its lemmas are about the relations alone.
    - [Catalog]: an in-memory service over a list of products
      ([matchesFilter], [catalog_findAll], [catalog_findOne]), modelled from
      the specification; the instance [catalog_contract] shows that it
      meets the contract, so the contract can be met.
    - [Endpoints]: the theorems on [findAll] and [findOne] for a controller
      over any service that meets the contract (section [Contract]), the
      specification's example, and the witnesses on the controller
      [mugShop] over the in-memory service.
    - [Routes]: the source's decorators as data.  [controllerPath] is line
      4, [findAllRoute] lines 8-12, [findOneRoute] lines 16-17, [routes]
      the table in declaration order.  [ParamDecl], [parameters] and
      [arity] are the signatures of the handlers with their optional
      marks ([search?: string], [id: string]).  [accepts], the argument
      lists a signature admits, is not code: TypeScript erases the
      optional marks; it is the notion the routing is checked against.
    - [Http]: the framework's dispatch, modelled from the specification's
      HTTP surface: [Request], [matchPath], [routeMatch], [argument], and
      [dispatch], which serves the first matching route by calling its
      handler on the arguments its parameter decorators extract.
      [ServiceCall], [echoService] and [plan] are devices of the
      development: the service that answers a call with the call itself
      makes the call a request results in a value.
    - [Api]: dispatch and contract together: the answer to a request is the
      one the specification prescribes, and the one the controller over the
      in-memory service of [Catalog] gives on the same data.
      [requestFilter] is the filter the specification's HTTP surface
      gives a request to GET /products; it is the expectation the code is
      checked against, not a translation of the code.
    - [Server]: the request/response model of the specification's section
      on concurrency.  The state [Server] holds the controller, the
      requests waiting ([inbox]), the calls whose promise is not settled
      ([pending]) and the responses ([outbox]); [boot] constructs the
      controller over the service with [new]; the relation [step] handles
      any waiting request through [Http.dispatch], or settles any pending
      call.  [tick] and [run] are a scheduler of the development's own:
      the interleaving that serves the requests one after the other, as a
      function with fuel.
    - [Ingestion]: the server while the catalogue ingestion process, which
      is outside the repository, updates the products.  The relation
      [serve] is a step of [Server.step], an update of the data behind
      the service, or the read of a pending call on the data as they are
      then; what one update may do is a parameter, a relation on
      services.

    Of these, [Controller] and [Routes] translate the source; everything
    else is modelled from the specification, and a theorem that rests on
    it says of the code what it says under that model.

    ** What the theorems show

    - Refinement ([Endpoints.findAll_refines_listProducts],
      [Endpoints.findOne_refines_getProduct],
      [Api.http_api_refines_spec]): the handlers, and the handlers behind
      the routes, return what the specification of the listing and of the
      lookup prescribes, for every service that meets the contract.
    - Reference ([Api.http_equiv_reference]): over a catalogue with
      distinct identifiers, the controller over any service that meets
      the contract answers as the controller over the in-memory service
      does on the same data.
    - Routing ([Http.dispatch_list_request], [Http.dispatch_get_request],
      [Http.dispatch_serves_exactly], [Http.dispatch_order_irrelevant],
      [Http.dispatch_reads_declared_inputs]): which requests reach which
      handler with which arguments; no request matches both routes; only
      the declared inputs are read.
    - Signatures ([Http.dispatch_well_typed]): the routing calls a
      handler with one argument for each parameter, and never leaves the
      required parameter of [findOne] without a value.
    - Concurrency ([Server.server_responses_meet_spec],
      [Server.server_answers_meet_spec],
      [Server.server_conserves_requests],
      [Server.server_answers_every_request], [Server.server_terminates],
      [Server.server_run_length], [Server.run_answers_in_order]): along
      every interleaving of concurrent requests the controller is the one
      constructed at start, no request is lost or answered twice, every
      response is the one the specification prescribes for its request,
      every interleaving ends, and when it has ended every request has
      its response.  All but the two that name the specification are
      properties of the model of the request loop: they hold whatever the
      routes and the handlers are.
    - Ingestion ([Ingestion.ingestion_responses_meet_spec]): when the
      catalogue is updated while requests are served, the service changes
      by the updates only, and every response is the one the specification
      prescribes on the service as the controller had it at a state that
      the run passed.
    - The calls on the service ([Http.plan_never_empty_id],
      [Http.plan_reaches_every_call]): [findOne] is never called on the
      empty identifier, and every other call of the service interface is
      the call some request results in.
    - The testable properties of the specification, on the handlers
      ([Endpoints]): the unfiltered listing is the full catalogue; a part
      of a name finds the product; a marketplace filter returns that
      marketplace only; lookup by an identifier of the catalogue returns
      its product; lookup of an absent identifier is [NotFound]; errors of
      the data source pass through unmodified; results keep the order of
      the catalogue; search ignores case; a longer search term narrows the
      listing.

    ** Conventions and bounds

    - A TypeScript optional parameter ([search?: string]) is an
      [option string]; [None] is [undefined].
    - A method call [this.productsService.findAll(x)] is the class
      operation [service_findAll] applied to the service object.  The
      handlers return the service's result as it is, so the model is
      parametric in the result types; theorems that speak of products fix
      them to [Outcome (list Product)] and [Outcome Product].
    - A promise is modelled by its settled [Outcome]; a call that never
      settles is not modelled.  In [Server] a call is pending between the
      step that makes it and the step that settles it.  In [Server] its
      result is fixed by the first of the two; under [Ingestion.serve] the
      read may take place at any moment between them, and the response
      reflects the catalogue as it was then.
    - The requests of a server are a closed batch: all of them wait at
      start and none arrives later.  Termination, the bound on the length
      of a run and the answering of every request are relative to that,
      and to every call settling.
    - A route parameter [":name"] matches a non-empty segment only.  This
      is the behaviour of the framework's router, not a statement of the
      specification; [Http.plan_never_empty_id] rests on it.
    - Every function but [Server.run] is structurally recursive on its
      data.  [Server.run] takes fuel, one unit for each tick: a waiting
      request needs at most two ticks (its call, and the settling of the
      call) and a pending call one, so [Server.work], twice the length
      of the inbox plus the number of pending calls, is enough
      ([Server.run_nf]), and the step relation itself is shown to have no
      infinite run ([Server.server_terminates]).
    - Case folding covers the ASCII letters A-Z, where JavaScript folds
      every letter of Unicode.
    - A path is the list of its segments; route paths of one segment are
      enough for this controller.

    ** Not modelled

    - The body of the service and the database behind it: only their
      contract, and one in-memory implementation of it.
    - The dependency-injection container: the model passes the service to
      the constructor.
    - Normalisation of method and path (letter case, trailing slashes,
      percent-decoding), repeated or nested query keys, headers, and the
      encoding of a result or an error as an HTTP response.
    - Timeouts and cancellation, which the specification leaves to the
      transport.
    - What the ingestion does to obtain and validate products: it appears
      as a relation on services only.  A read is one step: a listing that
      sees a part of an update is not modelled.
    - Parsing of the request line and encoding of the response.  The
      sources have no code for either, and the specification states the
      HTTP surface as method, path and query parameters only; a model
      would be of the framework alone and would not bear on the
      controller. *)

From Stdlib Require Export String Ascii.
From stdpp Require Export base tactics option list strings relations.

Declare Scope pq_scope.
Delimit Scope pq_scope with pq.

(** Hints for membership and list facts ([pq]) and rewriting rules that
    normalise string expressions ([pq_str]). *)
Create HintDb pq discriminated.
Create Rewrite HintDb pq_str.

(** [bool_prop] moves boolean conjunctions and decisions, as hypotheses or
    goal, to the propositions they decide. *)
Ltac bool_prop :=
  repeat match goal with
  | H : Is_true (_ && _) |- _ => apply andb_True in H; destruct H
  | H : Is_true (bool_decide _) |- _ => apply bool_decide_unpack in H
  | H : Is_true true |- _ => clear H
  | H : Is_true false |- _ => destruct H
  | |- Is_true (_ && _) => apply andb_True; split
  | |- Is_true (bool_decide _) => apply bool_decide_pack
  | |- Is_true true => exact I
  end.

Section StringFacts.

(** stdpp keeps [String.append] from unfolding under [simpl]; these two
    equations are its defining clauses, for rewriting. *)
Lemma append_nil_l (s : string) : "" +:+ s = s.
Proof. reflexivity. Qed.

Lemma append_cons (c : ascii) (s t : string) :
  String c s +:+ t = String c (s +:+ t).
Proof. reflexivity. Qed.

Lemma append_nil_r (s : string) : s +:+ "" = s.
Proof. induction s as [|c s IH]; [done | by rewrite append_cons, IH]. Qed.

Lemma append_assoc (s1 s2 s3 : string) :
  (s1 +:+ s2) +:+ s3 = s1 +:+ (s2 +:+ s3).
Proof. induction s1 as [|c s1 IH]; [done | by rewrite !append_cons, IH]. Qed.

Lemma length_append (s1 s2 : string) :
  String.length (s1 +:+ s2) = String.length s1 + String.length s2.
Proof. induction s1 as [|c s1 IH]; [done | by rewrite append_cons; simpl; rewrite IH]. Qed.

(** [String.prefix s1 s2] holds exactly when [s2] starts with [s1]. *)
Lemma prefix_spec (s1 s2 : string) :
  String.prefix s1 s2 = true ↔ ∃ rest, s2 = s1 +:+ rest.
Proof.
  revert s1; induction s2 as [|b s2 IH]; intros [|a s1]; simpl.
  - split; [by exists "" | done].
  - split; [done | by intros [rest ?]].
  - split; [by eexists | done].
  - destruct (Ascii.ascii_dec a b) as [->|Hne].
    + rewrite IH. split; intros [rest E]; exists rest.
      * by rewrite append_cons, E.
      * rewrite append_cons in E. by simplify_eq.
    + split; [done | intros [rest E]; rewrite append_cons in E; by simplify_eq].
Qed.

End StringFacts.

#[export] Hint Rewrite append_nil_l append_cons append_nil_r append_assoc
  length_append : pq_str.

Section FindFacts.
Context {A : Type} (f : A → bool).

(** [List.find] returns an element of the list that passes the test. *)
Lemma find_Some_elem_of (l : list A) (x : A) :
  List.find f l = Some x → x ∈ l ∧ f x = true.
Proof. intros H. apply find_some in H. by rewrite list_elem_of_In. Qed.

(** [List.find] fails only when no element passes the test. *)
Lemma find_None_iff (l : list A) :
  List.find f l = None ↔ ∀ x, x ∈ l → f x = false.
Proof.
  split.
  - intros H x Hx. by eapply find_none; [|apply list_elem_of_In].
  - induction l as [|y l IH]; intros H; simpl; [done|].
    rewrite (H y) by left. apply IH. intros x Hx. apply H. by right.
Qed.

(** When an element passes the test, [List.find] finds one. *)
Lemma find_is_Some (l : list A) (x : A) :
  x ∈ l → f x = true → is_Some (List.find f l).
Proof.
  intros Hx Hf. destruct (List.find f l) eqn:E; [done|].
  rewrite find_None_iff in E. specialize (E x Hx). congruence.
Qed.

(** When the test singles out one element of the list, [List.find] returns
    that element. *)
Lemma find_unique (l : list A) (x : A) :
  (∀ y, y ∈ l → f y = true → y = x) →
  x ∈ l → f x = true → List.find f l = Some x.
Proof.
  intros Huniq Hx Hf. destruct (find_is_Some l x Hx Hf) as [y E].
  rewrite E. f_equal. apply find_Some_elem_of in E as [??]. by apply Huniq.
Qed.

End FindFacts.

Section FilterFacts.
Context {A : Type} (P : A → Prop) `{!∀ x, Decision (P x)}.

(** A list whose elements all pass is left as it is. *)
Lemma filter_Forall_id (l : list A) : Forall P l → filter P l = l.
Proof.
  induction 1 as [|x l Hx _ IH]; [done|]. by rewrite filter_cons_True, IH.
Qed.

(** A list none of whose elements passes is emptied. *)
Lemma filter_Forall_not (l : list A) : Forall (λ x, ¬ P x) l → filter P l = [].
Proof.
  induction 1 as [|x l Hx _ IH]; [done|]. by rewrite filter_cons_False.
Qed.

Lemma Forall_filter_pass (l : list A) : Forall P (filter P l).
Proof. apply Forall_forall. by intros x [? _]%list_elem_of_filter. Qed.

(** Filtering keeps the sublist order. *)
Lemma filter_sublist_mono (l k : list A) :
  l `sublist_of` k → filter P l `sublist_of` filter P k.
Proof.
  induction 1 as [|x l k _ IH|x l k _ IH]; [done| |];
    rewrite ?filter_cons; repeat case_decide; by try constructor.
Qed.

(** [k] is the greatest sublist of [l] whose elements all satisfy [P]:
    the elements of [l] that satisfy [P], in the order and with the
    multiplicity they have in [l]. *)
Definition greatest_sublist (l k : list A) : Prop :=
  k `sublist_of` l ∧ Forall P k ∧
  ∀ k', k' `sublist_of` l → Forall P k' → k' `sublist_of` k.

Lemma greatest_sublist_filter (l : list A) : greatest_sublist l (filter P l).
Proof.
  split_and!; [apply sublist_filter | apply Forall_filter_pass |].
  intros k' Hsub Hall. rewrite <-(filter_Forall_id k' Hall).
  by apply filter_sublist_mono.
Qed.

(** There is one such sublist, and [filter] computes it. *)
Lemma greatest_sublist_unique (l k1 k2 : list A) :
  greatest_sublist l k1 → greatest_sublist l k2 → k1 = k2.
Proof.
  intros (Hs1 & Ha1 & Hg1) (Hs2 & Ha2 & Hg2).
  apply (anti_symm sublist); auto.
Qed.

Lemma greatest_sublist_iff (l k : list A) :
  greatest_sublist l k ↔ k = filter P l.
Proof.
  split; [|intros ->; apply greatest_sublist_filter].
  intros Hk. eapply greatest_sublist_unique; [done | apply greatest_sublist_filter].
Qed.

End FilterFacts.

Section KeyFacts.
Context {A K : Type} (key : A → K).

(** In a list with pairwise distinct keys, the key determines the
    element. *)
Lemma NoDup_fmap_key_inj (l : list A) (x y : A) :
  NoDup (key <$> l) → x ∈ l → y ∈ l → key x = key y → x = y.
Proof.
  induction l as [|z l IH]; [by intros _ ?%elem_of_nil|].
  rewrite fmap_cons, NoDup_cons, !elem_of_cons. intros [Hz Hnd] [->|Hx] [->|Hy] E;
    [done | | | by apply IH].
  - destruct Hz. rewrite E. by apply list_elem_of_fmap_2.
  - destruct Hz. rewrite <-E. by apply list_elem_of_fmap_2.
Qed.

End KeyFacts.

(** ** Runs of a step relation *)

Section RunFacts.
Context {A : Type} (R : relation A).

(** What every step preserves holds along every run. *)
Lemma rtc_invariant (P : A → Prop) (x y : A) :
  (∀ x y, P x → R x y → P y) → P x → rtc R x y → P y.
Proof. intros HR Hx Hrun. induction Hrun; eauto. Qed.

(** A measure that every step decreases bounds the length of the runs,
    and so rules out the infinite ones. *)
Context (m : A → nat) (Hm : ∀ x y, R x y → m y < m x).

Lemma nsteps_measure (n : nat) (x y : A) : nsteps R n x y → n + m y ≤ m x.
Proof using Hm.
  induction 1 as [|n x y z Hstep _ IH]; [lia|]. apply Hm in Hstep. lia.
Qed.

Lemma sn_measure (x : A) : sn R x.
Proof using Hm.
  remember (m x) as n eqn:Hn. revert x Hn.
  induction n as [n IH] using lt_wf_ind. intros x ->.
  constructor. intros y Hstep. eapply IH; [by apply Hm|done].
Qed.

End RunFacts.

#[export] Hint Resolve sublist_filter NoDup_filter : pq.
