(* ===== verification/Text.v ===== *)
(** * Text: case folding and substring search

    The string operations behind a case-insensitive substring filter, as a
    JavaScript service writes it:
    [name.toLowerCase().includes(search.toLowerCase())].

    - [toLowerCase]: case folding of the ASCII letters, where JavaScript
      folds every letter of Unicode;
    - [includes]: substring test, by trying every start position;
    - [Substring]: the declarative counterpart of [includes];
    - [ci_equiv]: equality up to case, an equivalence that case folding
      turns into equality. *)

From S2P Require Import Prelude.

(** ** Operations *)

(** The letters A-Z (codes 65 to 90) move to a-z; every other character is
    kept. *)
Fixpoint toLowerCase (s : string) : string :=
  match s with
  | EmptyString => EmptyString
  | String c rest =>
      let n := nat_of_ascii c in
      String (if (65 <=? n) && (n <=? 90) then ascii_of_nat (n + 32) else c)
        (toLowerCase rest)
  end.

(** [includes hay needle]: [needle] occurs in [hay] at some position. *)
Fixpoint includes (hay needle : string) : bool :=
  String.prefix needle hay ||
  match hay with
  | EmptyString => false
  | String _ rest => includes rest needle
  end.

(** ** Specifications *)

(** [needle] is a contiguous part of [hay]. *)
Definition Substring (needle hay : string) : Prop :=
  ∃ pre post, hay = pre +:+ needle +:+ post.

(** Two strings are equal up to the case of their letters. *)
Definition ci_equiv (s t : string) : Prop := toLowerCase s = toLowerCase t.

Infix "≡ci" := ci_equiv (at level 70, no associativity) : pq_scope.
Local Open Scope pq_scope.

(** ** Case folding *)

Lemma toLowerCase_idemp (s : string) : toLowerCase (toLowerCase s) = toLowerCase s.
Proof.
  induction s as [|c s IH]; [done|]. cbn [toLowerCase]. rewrite IH. f_equal.
  by destruct c as [[] [] [] [] [] [] [] []].
Qed.

Lemma toLowerCase_append (s t : string) :
  toLowerCase (s +:+ t) = toLowerCase s +:+ toLowerCase t.
Proof.
  induction s as [|c s IH]; [done|].
  rewrite append_cons; simpl. by rewrite append_cons, IH.
Qed.

Lemma toLowerCase_length (s : string) :
  String.length (toLowerCase s) = String.length s.
Proof. induction s as [|c s IH]; simpl; [done | by rewrite IH]. Qed.

#[export] Hint Rewrite toLowerCase_idemp toLowerCase_append toLowerCase_length
  : pq_str.

(** ** Substrings *)

Lemma Substring_refl (s : string) : Substring s s.
Proof. exists "", "". by rewrite append_nil_r. Qed.

Lemma Substring_empty (s : string) : Substring "" s.
Proof. by exists "", s. Qed.

Lemma Substring_trans (s t u : string) :
  Substring s t → Substring t u → Substring s u.
Proof.
  intros (p1 & q1 & ->) (p2 & q2 & ->).
  exists (p2 +:+ p1), (q1 +:+ q2). by rewrite !append_assoc.
Qed.

#[export] Instance Substring_preorder : PreOrder Substring.
Proof. split; [exact Substring_refl | exact Substring_trans]. Qed.

Lemma Substring_cons (c : ascii) (needle hay : string) :
  Substring needle hay → Substring needle (String c hay).
Proof. intros (pre & post & ->). by exists (String c pre), post. Qed.

Lemma Substring_length (needle hay : string) :
  Substring needle hay → String.length needle ≤ String.length hay.
Proof. intros (pre & post & ->). rewrite !length_append. lia. Qed.

(** A substring of a non-empty string starts at its head or lies in its
    tail. *)
Lemma Substring_cons_inv (c : ascii) (needle hay : string) :
  Substring needle (String c hay) →
  (∃ rest, String c hay = needle +:+ rest) ∨ Substring needle hay.
Proof.
  intros ([|c' pre] & post & E).
  - left. by exists post.
  - right. rewrite append_cons in E. exists pre, post. by simplify_eq.
Qed.

(** Case folding keeps the substring relation. *)
Lemma Substring_toLowerCase (needle hay : string) :
  Substring needle hay → Substring (toLowerCase needle) (toLowerCase hay).
Proof.
  intros (pre & post & ->). exists (toLowerCase pre), (toLowerCase post).
  by rewrite !toLowerCase_append.
Qed.

(** [includes] decides [Substring]. *)
Lemma includes_spec (hay needle : string) :
  includes hay needle = true ↔ Substring needle hay.
Proof.
  induction hay as [|c hay IH]; cbn [includes]; rewrite orb_true_iff, prefix_spec.
  - split.
    + intros [[rest ->] | ?]; [|done]. by exists "", rest.
    + intros ([|??] & post & E); [left; by exists post | done].
  - rewrite IH. split.
    + intros [[rest ->] | H]; [by exists "", rest | by apply Substring_cons].
    + intros H. by apply Substring_cons_inv in H.
Qed.

Lemma includes_false (hay needle : string) :
  includes hay needle = false ↔ ¬ Substring needle hay.
Proof. rewrite <-includes_spec. by destruct (includes hay needle). Qed.

#[export] Instance Substring_dec (needle hay : string) :
  Decision (Substring needle hay) :=
  match includes hay needle as b return includes hay needle = b → _ with
  | true => λ H, left (proj1 (includes_spec hay needle) H)
  | false => λ H, right (proj1 (includes_false hay needle) H)
  end eq_refl.

Lemma includes_refl (s : string) : includes s s = true.
Proof. by apply includes_spec. Qed.

Lemma includes_empty (s : string) : includes s "" = true.
Proof. apply includes_spec, Substring_empty. Qed.

(** ** Case-insensitive search *)

(** A part of the text is found after folding, whatever its case. *)
Lemma includes_toLowerCase_part (hay needle : string) :
  Substring needle hay → includes (toLowerCase hay) (toLowerCase needle) = true.
Proof. intros H. by apply includes_spec, Substring_toLowerCase. Qed.

#[export] Instance ci_equiv_equivalence : Equivalence ci_equiv.
Proof.
  unfold ci_equiv. split; [by intros ? | by intros ?? | by intros ??? -> ->].
Qed.

Lemma toLowerCase_ci (s : string) : toLowerCase s ≡ci s.
Proof. apply toLowerCase_idemp. Qed.

(** Case folding identifies the strings that are equal up to case. *)
#[export] Instance toLowerCase_proper : Proper (ci_equiv ==> eq) toLowerCase.
Proof. by intros s t Hst. Qed.

(** The folded substring relation does not see the case of either side. *)
#[export] Instance Substring_ci_proper :
  Proper (ci_equiv ==> ci_equiv ==> iff)
    (λ needle hay, Substring (toLowerCase needle) (toLowerCase hay)).
Proof. intros n1 n2 Hn h1 h2 Hh. by rewrite Hn, Hh. Qed.

#[export] Hint Resolve Substring_refl Substring_empty includes_refl
  includes_empty includes_toLowerCase_part : pq.
