(* ===== verification/Controller.v ===== *)
(** * Controller: the class [ProductsController]

    A model of [src/backend/src/products/products.controller.ts], line by
    line:

    - [FindAllQuery] is the object literal [{ search, marketplace }] the
      controller builds (line 13); an absent query parameter is [None];
    - [ProductsService] is the interface of the injected service, as the
      controller uses it: the two methods it calls (lines 13 and 18).  The
      result types are parameters, since the controller returns the
      service's result untouched, whatever it is;
    - [ProductsController] is the class: its only field is the service the
      constructor stores (line 6), and [new] is that constructor;
    - [findAll] and [findOne] are the two handlers (lines 9-14 and 17-19). *)

From S2P Require Import Prelude.

(** ** Data *)

Record FindAllQuery : Type := {
  search : option string;
  marketplace : option string
}.

#[export] Instance FindAllQuery_eq_dec : EqDecision FindAllQuery.
Proof. solve_decision. Defined.

(** ** The service interface *)

(** [Svc] is the type of service objects; [RA] and [RO] are what [findAll]
    and [findOne] return. *)
Class ProductsService (Svc RA RO : Type) : Type := {
  service_findAll : Svc → FindAllQuery → RA;
  service_findOne : Svc → string → RO
}.

#[export] Hint Mode ProductsService ! - - : typeclass_instances.

(** ** The controller *)

Record ProductsController (Svc : Type) : Type := {
  productsService : Svc
}.

Arguments Build_ProductsController {Svc} _.
Arguments productsService {Svc} _.

(** The constructor (line 6): its parameter property stores the service it
    is given. *)
Definition new {Svc : Type} (productsService : Svc) : ProductsController Svc :=
  {| productsService := productsService |}.

(** A controller is its constructor applied to its field. *)
Lemma new_productsService {Svc : Type} (this : ProductsController Svc) :
  new (productsService this) = this.
Proof. by destruct this. Qed.

Section Handlers.
Context {Svc RA RO : Type} `{!ProductsService Svc RA RO}.

Definition findAll (this : ProductsController Svc)
    (search marketplace : option string) : RA :=
  service_findAll (productsService this)
    {| search := search; marketplace := marketplace |}.

Definition findOne (this : ProductsController Svc) (id : string) : RO :=
  service_findOne (productsService this) id.

End Handlers.
