(* ===== verification/QuerySpec.v ===== *)
(** * QuerySpec: the product query service, abstractly

    What the controller's service promises, independent of how it is
    implemented:

    - the data: [Product], the errors [ServiceError] and the settled result
      [Outcome] of a call;
    - [Matches]: the filter, as a proposition on a product;
    - [listProducts_spec], [getProduct_spec]: the relation between the
      state of the catalogue (the outcome of reading the data source), the
      argument of a call and its result;
    - [ProductQueryService]: the contract, a [ProductsService] whose two
      operations satisfy the two relations.

    The lemmas of this file are about the relations alone; [Endpoints]
    transfers them to the controller's handlers. *)

From S2P Require Import Prelude Text Controller.

Local Open Scope pq_scope.

(** ** Data *)

Record Product : Type := {
  productId : string;
  productName : string;
  productPrice : Z;
  productMarketplace : string
}.

#[export] Instance Product_eq_dec : EqDecision Product.
Proof. solve_decision. Defined.

Inductive ServiceError : Type :=
| NotFound
| RetrievalFailure.

#[export] Instance ServiceError_eq_dec : EqDecision ServiceError.
Proof. solve_decision. Defined.

(** A settled call: the value it resolved to, or the error it rejected
    with. *)
Inductive Outcome (A : Type) : Type :=
| Resolved (value : A)
| Rejected (error : ServiceError).

Arguments Resolved {A} _.
Arguments Rejected {A} _.

#[export] Instance Outcome_eq_dec `{EqDecision A} : EqDecision (Outcome A).
Proof. solve_decision. Defined.

(** ** The filter *)

(** The search term occurs in the product's name, up to case. *)
Definition MatchesSearch (s : option string) (p : Product) : Prop :=
  from_option
    (λ s, Substring (toLowerCase s) (toLowerCase (productName p))) True s.

(** The product carries the marketplace tag asked for. *)
Definition MatchesMarketplace (m : option string) (p : Product) : Prop :=
  from_option (λ m, productMarketplace p = m) True m.

Definition Matches (q : FindAllQuery) (p : Product) : Prop :=
  MatchesSearch (search q) p ∧ MatchesMarketplace (marketplace q) p.

#[export] Instance MatchesSearch_dec s p : Decision (MatchesSearch s p).
Proof. destruct s; simpl; apply _. Defined.

#[export] Instance MatchesMarketplace_dec m p : Decision (MatchesMarketplace m p).
Proof. destruct m; simpl; apply _. Defined.

#[export] Instance Matches_dec q p : Decision (Matches q p).
Proof. apply _. Defined.

(** The identifiers of a catalogue are pairwise distinct. *)
Definition UniqueIds (cat : list Product) : Prop := NoDup (productId <$> cat).

(** ** The specification of the two operations *)

(** [listProducts_spec q src out]: when the data source yields the
    catalogue [cat], the call resolves to the products of [cat] that match
    [q], in the order and with the multiplicity of [cat]; when the data
    source fails, the call rejects with the same error. *)
Inductive listProducts_spec (q : FindAllQuery) :
    Outcome (list Product) → Outcome (list Product) → Prop :=
| listProducts_ok cat l :
    greatest_sublist (Matches q) cat l →
    listProducts_spec q (Resolved cat) (Resolved l)
| listProducts_failed e :
    listProducts_spec q (Rejected e) (Rejected e).

(** [getProduct_spec id src out]: the call resolves to a product of the
    catalogue with that identifier, rejects with [NotFound] when there is
    none, and rejects with the data source's error when it fails. *)
Inductive getProduct_spec (id : string) :
    Outcome (list Product) → Outcome Product → Prop :=
| getProduct_found cat p :
    p ∈ cat → productId p = id →
    getProduct_spec id (Resolved cat) (Resolved p)
| getProduct_missing cat :
    (∀ p, p ∈ cat → productId p ≠ id) →
    getProduct_spec id (Resolved cat) (Rejected NotFound)
| getProduct_failed e :
    getProduct_spec id (Rejected e) (Rejected e).

(** ** The contract *)

(** [dataSource svc] is the abstract state of the service object: what
    reading its data source yields. *)
Class ProductQueryService (Svc : Type)
    `{!ProductsService Svc (Outcome (list Product)) (Outcome Product)} := {
  dataSource : Svc → Outcome (list Product);
  service_findAll_spec svc q :
    listProducts_spec q (dataSource svc) (service_findAll svc q);
  service_findOne_spec svc id :
    getProduct_spec id (dataSource svc) (service_findOne svc id)
}.

#[export] Hint Constructors listProducts_spec getProduct_spec : pq.

(** ** The filter: lemmas *)

Lemma Matches_unfiltered (p : Product) :
  Matches {| search := None; marketplace := None |} p.
Proof. done. Qed.

Lemma MatchesSearch_empty (p : Product) : MatchesSearch (Some "") p.
Proof. apply Substring_empty. Qed.

(** A part of the name matches, whatever the case of either. *)
Lemma MatchesSearch_part (s : string) (p : Product) :
  Substring s (productName p) → MatchesSearch (Some s) p.
Proof. apply Substring_toLowerCase. Qed.

(** Search terms that are equal up to case select the same products. *)
Lemma MatchesSearch_ci (s t : string) (p : Product) :
  s ≡ci t → MatchesSearch (Some s) p ↔ MatchesSearch (Some t) p.
Proof. intros Hst. simpl. by rewrite Hst. Qed.

(** A term selects every product that a term it is a part of selects. *)
Lemma MatchesSearch_narrows (s1 s2 : string) (p : Product) :
  Substring s1 s2 → MatchesSearch (Some s2) p → MatchesSearch (Some s1) p.
Proof.
  intros Hs%Substring_toLowerCase%Substring_toLowerCase. simpl.
  rewrite !toLowerCase_idemp in Hs. by apply Substring_trans.
Qed.

Lemma Matches_both (s m : option string) (p : Product) :
  Matches {| search := s; marketplace := m |} p ↔
  Matches {| search := s; marketplace := None |} p ∧
  Matches {| search := None; marketplace := m |} p.
Proof. unfold Matches; simpl. tauto. Qed.

Lemma Matches_search_part (s : string) (p : Product) :
  Substring s (productName p) →
  Matches {| search := Some s; marketplace := None |} p.
Proof. split; [by apply MatchesSearch_part | done]. Qed.

#[export] Hint Resolve Matches_unfiltered MatchesSearch_empty MatchesSearch_part
  Matches_search_part : pq.

(** ** [listProducts_spec]: lemmas *)

Section ListSpec.
Context (q : FindAllQuery).
Implicit Types (cat l : list Product) (out : Outcome (list Product)).

(** The relation is a function of the query and the data source, and
    [filter] computes it. *)
Lemma listProducts_spec_Resolved cat out :
  listProducts_spec q (Resolved cat) out ↔
  out = Resolved (filter (Matches q) cat).
Proof.
  split.
  - inversion 1; subst. f_equal. by apply greatest_sublist_iff.
  - intros ->. constructor. apply greatest_sublist_filter.
Qed.

Lemma listProducts_spec_Rejected e out :
  listProducts_spec q (Rejected e) out ↔ out = Rejected e.
Proof. split; [by inversion 1 | intros ->; constructor]. Qed.

Lemma listProducts_spec_functional src out1 out2 :
  listProducts_spec q src out1 → listProducts_spec q src out2 → out1 = out2.
Proof.
  destruct src; rewrite ?listProducts_spec_Resolved, ?listProducts_spec_Rejected;
    congruence.
Qed.

Lemma listProducts_spec_total src : ∃ out, listProducts_spec q src out.
Proof. destruct src; eauto using greatest_sublist_filter with pq. Qed.

(** The call fails exactly when the data source does. *)
Lemma listProducts_spec_Rejected_inv src e out :
  listProducts_spec q src out → out = Rejected e → src = Rejected e.
Proof. by inversion 1; intros; simplify_eq. Qed.

(** The products listed are those of the catalogue that match. *)
Lemma listProducts_spec_elem_of cat l p :
  listProducts_spec q (Resolved cat) (Resolved l) →
  p ∈ l ↔ p ∈ cat ∧ Matches q p.
Proof.
  rewrite listProducts_spec_Resolved. intros [= ->].
  rewrite list_elem_of_filter. tauto.
Qed.

Lemma listProducts_spec_sublist cat l :
  listProducts_spec q (Resolved cat) (Resolved l) → l `sublist_of` cat.
Proof. rewrite listProducts_spec_Resolved. intros [= ->]. apply sublist_filter. Qed.

(** A catalogue with distinct identifiers lists distinct identifiers. *)
Lemma listProducts_spec_UniqueIds cat l :
  listProducts_spec q (Resolved cat) (Resolved l) → UniqueIds cat → UniqueIds l.
Proof.
  intros Hspec Huniq. eapply sublist_NoDup; [exact Huniq|].
  by apply fmap_sublist, listProducts_spec_sublist.
Qed.

End ListSpec.

(** When every product matches, the whole catalogue is listed. *)
Lemma listProducts_spec_all q cat out :
  listProducts_spec q (Resolved cat) out → Forall (Matches q) cat →
  out = Resolved cat.
Proof.
  rewrite listProducts_spec_Resolved. intros -> Hall.
  by rewrite filter_Forall_id.
Qed.

(** A query that selects fewer products lists a sublist. *)
Lemma listProducts_spec_narrows q1 q2 cat l1 l2 :
  (∀ p, Matches q2 p → Matches q1 p) →
  listProducts_spec q1 (Resolved cat) (Resolved l1) →
  listProducts_spec q2 (Resolved cat) (Resolved l2) →
  l2 `sublist_of` l1.
Proof.
  intros Himpl. rewrite !listProducts_spec_Resolved. intros [= ->] [= ->].
  rewrite <-(filter_Forall_id (Matches q1) (filter (Matches q2) cat)).
  - apply filter_sublist_mono, sublist_filter.
  - eapply Forall_impl; [apply Forall_filter_pass | done].
Qed.

(** Queries that select the same products list the same products. *)
Lemma listProducts_spec_ext q1 q2 src out1 out2 :
  (∀ p, Matches q1 p ↔ Matches q2 p) →
  listProducts_spec q1 src out1 → listProducts_spec q2 src out2 → out1 = out2.
Proof.
  intros Heq. destruct src;
    rewrite ?listProducts_spec_Resolved, ?listProducts_spec_Rejected;
    intros -> ->; [|done].
  f_equal. by apply list_filter_iff.
Qed.

(** ** [getProduct_spec]: lemmas *)

Section GetSpec.
Context (id : string).
Implicit Types (cat : list Product) (out : Outcome Product).

Lemma getProduct_spec_Resolved_inv cat p :
  getProduct_spec id (Resolved cat) (Resolved p) → p ∈ cat ∧ productId p = id.
Proof. by inversion 1. Qed.

(** A rejection, when the catalogue could be read, is [NotFound], and then
    no product has the identifier. *)
Lemma getProduct_spec_Rejected_inv cat e :
  getProduct_spec id (Resolved cat) (Rejected e) →
  e = NotFound ∧ ∀ p, p ∈ cat → productId p ≠ id.
Proof. by inversion 1. Qed.

Lemma getProduct_spec_failed_inv e out :
  getProduct_spec id (Rejected e) out → out = Rejected e.
Proof. by inversion 1. Qed.

(** An identifier of the catalogue is found. *)
Lemma getProduct_spec_present cat out :
  getProduct_spec id (Resolved cat) out → id ∈ productId <$> cat →
  ∃ p, out = Resolved p ∧ p ∈ cat ∧ productId p = id.
Proof.
  intros Hspec (p & -> & Hp)%list_elem_of_fmap. inversion Hspec; subst.
  - eauto.
  - naive_solver.
Qed.

(** An identifier that is not in the catalogue is reported as such. *)
Lemma getProduct_spec_absent cat out :
  getProduct_spec id (Resolved cat) out → id ∉ productId <$> cat →
  out = Rejected NotFound.
Proof.
  intros Hspec Hid. inversion Hspec; subst; [|done].
  destruct Hid. by apply list_elem_of_fmap_2.
Qed.

(** With distinct identifiers the relation is a function. *)
Lemma getProduct_spec_functional src out1 out2 :
  (∀ cat, src = Resolved cat → UniqueIds cat) →
  getProduct_spec id src out1 → getProduct_spec id src out2 → out1 = out2.
Proof.
  intros Huniq H1 H2.
  destruct H1 as [cat p Hp Hid|cat Hnone|e]; inversion H2 as [? p' Hp' Hid'|? Hnone'|];
    subst; try done.
  - f_equal. by apply (NoDup_fmap_key_inj productId cat); [apply Huniq|..].
  - by destruct (Hnone' p Hp).
  - by destruct (Hnone p' Hp').
Qed.

End GetSpec.

(** With distinct identifiers, looking a product up by its own identifier
    gives the product back. *)
Lemma getProduct_spec_own_id cat p out :
  UniqueIds cat → p ∈ cat →
  getProduct_spec (productId p) (Resolved cat) out → out = Resolved p.
Proof.
  intros Huniq Hp Hspec.
  apply (getProduct_spec_functional (productId p) (Resolved cat));
    [by intros ? [= <-] | done | by constructor].
Qed.
