(* ===== verification/Catalog.v ===== *)
(** * Catalog: an in-memory product query service

    The service behind the controller is not part of the sources; this
    file models it from the specification, as straightforward TypeScript
    would write it over an array of products:

    - the service object is what reading its data source yields, the rows
      or the error of the read: the two operations depend on nothing else;
    - [matchesFilter]: the filter of [findAll], executable;
    - [catalog_findAll]: the rows that pass the filter, in their order;
    - [catalog_findOne]: the first row with the identifier, or [NotFound];
    - [catalogService]: the two operations as a [ProductsService];
    - [catalog_contract]: they meet the contract of [QuerySpec]. *)

From S2P Require Import Prelude Text Controller QuerySpec.

(** ** The service *)

Definition matchesFilter (q : FindAllQuery) (p : Product) : bool :=
  match search q with
  | Some s => includes (toLowerCase (productName p)) (toLowerCase s)
  | None => true
  end
  &&
  match marketplace q with
  | Some m => String.eqb (productMarketplace p) m
  | None => true
  end.

Definition catalog_findAll (rows : Outcome (list Product)) (q : FindAllQuery) :
    Outcome (list Product) :=
  match rows with
  | Resolved products => Resolved (filter (λ p, matchesFilter q p) products)
  | Rejected e => Rejected e
  end.

Definition catalog_findOne (rows : Outcome (list Product)) (id : string) :
    Outcome Product :=
  match rows with
  | Resolved products =>
      match List.find (λ p, String.eqb (productId p) id) products with
      | Some p => Resolved p
      | None => Rejected NotFound
      end
  | Rejected e => Rejected e
  end.

#[export] Instance catalogService :
    ProductsService (Outcome (list Product)) (Outcome (list Product))
      (Outcome Product) := {
  service_findAll := catalog_findAll;
  service_findOne := catalog_findOne
}.

(** ** The filter decides [Matches] *)

Lemma matchesFilter_spec (q : FindAllQuery) (p : Product) :
  matchesFilter q p ↔ Matches q p.
Proof.
  unfold matchesFilter, Matches. rewrite andb_True.
  destruct (search q) as [s|], (marketplace q) as [m|]; simpl;
    rewrite ?Is_true_true, ?includes_spec, ?String.eqb_eq; tauto.
Qed.

Lemma filter_matchesFilter (q : FindAllQuery) (l : list Product) :
  filter (λ p, matchesFilter q p) l = filter (Matches q) l.
Proof. apply list_filter_iff, matchesFilter_spec. Qed.

(** ** The operations meet their specifications *)

Lemma catalog_findAll_spec (rows : Outcome (list Product)) (q : FindAllQuery) :
  listProducts_spec q rows (catalog_findAll rows q).
Proof.
  unfold catalog_findAll. destruct rows as [products|e]; [|constructor].
  apply listProducts_spec_Resolved. by rewrite filter_matchesFilter.
Qed.

Lemma catalog_findOne_spec (rows : Outcome (list Product)) (id : string) :
  getProduct_spec id rows (catalog_findOne rows id).
Proof.
  unfold catalog_findOne. destruct rows as [products|e]; [|constructor].
  destruct (List.find _ products) as [p|] eqn:E.
  - apply find_Some_elem_of in E as [Hp Hid]. constructor; [done|].
    by apply String.eqb_eq.
  - constructor. intros p Hp. apply String.eqb_neq.
    by apply (proj1 (find_None_iff _ _) E).
Qed.

#[export] Instance catalog_contract :
    ProductQueryService (Outcome (list Product)) := {
  dataSource := id;
  service_findAll_spec := catalog_findAll_spec;
  service_findOne_spec := catalog_findOne_spec
}.

(** ** Further facts on the implementation *)

(** [findOne] returns the first row with the identifier. *)
Lemma catalog_findOne_first (l1 l2 : list Product) (p : Product) :
  productId p ∉ productId <$> l1 →
  catalog_findOne (Resolved (l1 ++ p :: l2)) (productId p) = Resolved p.
Proof.
  intros Hfresh. unfold catalog_findOne; simpl.
  induction l1 as [|p1 l1 IH]; simpl.
  - by rewrite String.eqb_refl.
  - rewrite fmap_cons, not_elem_of_cons in Hfresh. destruct Hfresh as [Hne Hfresh].
    apply not_eq_sym, String.eqb_neq in Hne. rewrite Hne. by apply IH.
Qed.
