(* ===== verification/Endpoints.v ===== *)
(** * Endpoints: what the two handlers return

    The theorems on [findAll] and [findOne] of [Controller].  The section
    [Contract] proves them for a controller over any service that meets the
    contract [ProductQueryService]; the proofs unfold the handler, take the
    specification of the service call it makes, and conclude with the
    lemmas of [QuerySpec].  The witnesses apply them to [mugShop], the
    controller over the in-memory service of [Catalog] with the two-product
    catalogue of the specification's example. *)

From S2P Require Import Prelude Text Controller QuerySpec Catalog.

Local Open Scope pq_scope.

(** ** The example catalogue *)

Definition redMug : Product :=
  {| productId := "1"; productName := "Red Mug"; productPrice := 1250;
     productMarketplace := "A" |}.

Definition blueMug : Product :=
  {| productId := "2"; productName := "Blue Mug"; productPrice := 990;
     productMarketplace := "B" |}.

Definition mugs : list Product := [redMug; blueMug].

Definition mugShop : ProductsController (Outcome (list Product)) :=
  {| productsService := Resolved mugs |}.

(** The same controller when the data source cannot be read. *)
Definition brokenShop : ProductsController (Outcome (list Product)) :=
  {| productsService := Rejected RetrievalFailure |}.

Lemma mugs_UniqueIds : UniqueIds mugs.
Proof. by apply (bool_decide_unpack (UniqueIds mugs)). Qed.

(** ** Tactics *)

(** [handler_spec H] unfolds the handlers and adds, as [H], the
    specification of the service call the goal makes; [handler_spec H with
    Hsrc] also rewrites the data source with [Hsrc] in it. *)
Ltac handler_spec_as H :=
  unfold findAll, findOne in *;
  lazymatch goal with
  | |- context [service_findAll ?svc ?q] =>
      pose proof (service_findAll_spec svc q) as H
  | |- context [service_findOne ?svc ?id] =>
      pose proof (service_findOne_spec svc id) as H
  | _ : context [service_findAll ?svc ?q] |- _ =>
      pose proof (service_findAll_spec svc q) as H
  | _ : context [service_findOne ?svc ?id] |- _ =>
      pose proof (service_findOne_spec svc id) as H
  end.

Tactic Notation "handler_spec" ident(H) := handler_spec_as H.

Tactic Notation "handler_spec" ident(H) "with" constr(Hsrc) :=
  handler_spec_as H; rewrite Hsrc in H.

Section Contract.
Context {Svc : Type}.
Context `{!ProductsService Svc (Outcome (list Product)) (Outcome Product)}.
Context `{!ProductQueryService Svc}.
Context (ctrl : ProductsController Svc).

Local Abbreviation source := (dataSource (productsService ctrl)).

(** ** Refinement *)

(** C1: [findAll] called with the query parameters [s] and [m] returns
    what the specification of the listing prescribes for the filter with
    search term [s] and marketplace [m]. *)
Theorem findAll_refines_listProducts (s m : option string) :
  listProducts_spec {| search := s; marketplace := m |} source
    (findAll ctrl s m).
Proof. unfold findAll. apply service_findAll_spec. Qed.

(** C2: [findOne] called with the path parameter [id] returns what the
    specification of the lookup prescribes for [id]. *)
Theorem findOne_refines_getProduct (id : string) :
  getProduct_spec id source (findOne ctrl id).
Proof. unfold findOne. apply service_findOne_spec. Qed.

(** ** Listing *)

(** C9: with both query parameters absent, [findAll] returns the full
    catalogue. *)
Theorem findAll_unfiltered_full_catalog (cat : list Product) :
  source = Resolved cat → findAll ctrl None None = Resolved cat.
Proof.
  intros Hsrc. handler_spec Hspec with Hsrc.
  eapply listProducts_spec_all; [done|]. apply Forall_forall; auto with pq.
Qed.

(** C10: every product [findAll] returns for the marketplace [m] carries
    the marketplace tag [m]. *)
Theorem findAll_marketplace_sound (s : option string) (m : string)
    (cat l : list Product) (p : Product) :
  source = Resolved cat → findAll ctrl s (Some m) = Resolved l → p ∈ l →
  productMarketplace p = m.
Proof.
  intros Hsrc Hl Hp. handler_spec Hspec with Hsrc. rewrite Hl in Hspec.
  apply (listProducts_spec_elem_of _ _ _ p) in Hspec.
  by apply Hspec in Hp as [_ [_ ?]].
Qed.

(** C11: a product of the catalogue is returned by [findAll] for every
    search term that is a part of its name, in any case. *)
Theorem findAll_search_complete (s : string) (cat : list Product) (p : Product) :
  source = Resolved cat → p ∈ cat → Substring s (productName p) →
  ∃ l, findAll ctrl (Some s) None = Resolved l ∧ p ∈ l.
Proof.
  intros Hsrc Hp Hs. handler_spec Hspec with Hsrc.
  apply listProducts_spec_Resolved in Hspec as ->. eexists; split; [done|].
  apply list_elem_of_filter. auto with pq.
Qed.

(** C28: the products [findAll] returns are exactly the products of the
    catalogue that match the search term and the marketplace. *)
Theorem findAll_elem_of (s m : option string) (cat l : list Product)
    (p : Product) :
  source = Resolved cat → findAll ctrl s m = Resolved l →
  p ∈ l ↔ p ∈ cat ∧ MatchesSearch s p ∧ MatchesMarketplace m p.
Proof.
  intros Hsrc Hl. handler_spec Hspec with Hsrc. rewrite Hl in Hspec.
  by rewrite (listProducts_spec_elem_of _ _ _ p Hspec).
Qed.

(** C29: [findAll] returns the products in the order of the catalogue,
    none of them more often than the catalogue has it, and with pairwise
    distinct identifiers when the catalogue's are. *)
Theorem findAll_order_stable (s m : option string) (cat l : list Product) :
  source = Resolved cat → findAll ctrl s m = Resolved l →
  l `sublist_of` cat ∧ (UniqueIds cat → UniqueIds l).
Proof.
  intros Hsrc Hl. handler_spec Hspec with Hsrc. rewrite Hl in Hspec.
  eauto using listProducts_spec_sublist, listProducts_spec_UniqueIds.
Qed.

(** C35: when no product matches, [findAll] returns the empty list, not an
    error. *)
Theorem findAll_no_match_empty (s m : option string) (cat : list Product) :
  source = Resolved cat →
  (∀ p, p ∈ cat → ¬ Matches {| search := s; marketplace := m |} p) →
  findAll ctrl s m = Resolved [].
Proof.
  intros Hsrc Hnone. handler_spec Hspec with Hsrc.
  apply listProducts_spec_Resolved in Hspec as ->. f_equal.
  apply filter_Forall_not, Forall_forall. auto.
Qed.

(** ** Equivalent queries *)

(** C30: search terms that differ only in the case of their letters give
    the same result. *)
Theorem findAll_case_insensitive (s t : string) (m : option string) :
  s ≡ci t → findAll ctrl (Some s) m = findAll ctrl (Some t) m.
Proof.
  intros Hst. unfold findAll.
  eapply listProducts_spec_ext; [|apply service_findAll_spec..].
  intros p. unfold Matches; simpl. by rewrite Hst.
Qed.

(** C31: the empty search term filters nothing: it gives the result of an
    absent search term. *)
Theorem findAll_empty_search (m : option string) :
  findAll ctrl (Some "") m = findAll ctrl None m.
Proof.
  unfold findAll. eapply listProducts_spec_ext; [|apply service_findAll_spec..].
  intros p. unfold Matches; simpl. split; [tauto|]. intros [_ ?]. auto with pq.
Qed.

(** C33: a longer search term narrows the listing: when [s1] is a part of
    [s2], the products found for [s2] are among those found for [s1], in
    the same order. *)
Theorem findAll_search_narrows (s1 s2 : string) (m : option string)
    (cat l1 l2 : list Product) :
  source = Resolved cat → Substring s1 s2 →
  findAll ctrl (Some s1) m = Resolved l1 →
  findAll ctrl (Some s2) m = Resolved l2 →
  l2 `sublist_of` l1.
Proof.
  intros Hsrc Hs Hl1 Hl2. unfold findAll in *.
  pose proof (service_findAll_spec (productsService ctrl)) as Hspec.
  rewrite Hsrc in Hspec.
  apply (listProducts_spec_narrows {| search := Some s1; marketplace := m |}
           {| search := Some s2; marketplace := m |} cat);
    [|rewrite <-Hl1; apply Hspec|rewrite <-Hl2; apply Hspec].
  intros p [Hp ?]. split; [by eapply MatchesSearch_narrows | done].
Qed.

(** C32: filtering by search term and marketplace together returns the
    products that each of the two filters returns on its own. *)
Theorem findAll_filters_conjoin (s m : option string)
    (cat l ls lm : list Product) (p : Product) :
  source = Resolved cat →
  findAll ctrl s m = Resolved l →
  findAll ctrl s None = Resolved ls →
  findAll ctrl None m = Resolved lm →
  p ∈ l ↔ p ∈ ls ∧ p ∈ lm.
Proof.
  intros Hsrc Hl Hls Hlm. unfold findAll in *.
  pose proof (service_findAll_spec (productsService ctrl)) as Hspec.
  rewrite Hsrc in Hspec.
  rewrite (listProducts_spec_elem_of _ cat l), (listProducts_spec_elem_of _ cat ls),
    (listProducts_spec_elem_of _ cat lm), Matches_both by (by rewrite <-?Hl, <-?Hls, <-?Hlm).
  tauto.
Qed.

(** ** Lookup *)

(** C13: in a catalogue with pairwise distinct identifiers, [findOne] on
    the identifier of a product of the catalogue returns that product. *)
Theorem findOne_roundtrip (cat : list Product) (p : Product) :
  source = Resolved cat → UniqueIds cat → p ∈ cat →
  findOne ctrl (productId p) = Resolved p.
Proof.
  intros Hsrc Huniq Hp. handler_spec Hspec with Hsrc.
  by eapply getProduct_spec_own_id.
Qed.

(** C14: [findOne] on an identifier no product of the catalogue has
    rejects with [NotFound]. *)
Theorem findOne_absent_NotFound (cat : list Product) (id : string) :
  source = Resolved cat → id ∉ productId <$> cat →
  findOne ctrl id = Rejected NotFound.
Proof.
  intros Hsrc Hid. handler_spec Hspec with Hsrc.
  by eapply getProduct_spec_absent.
Qed.

(** C15: a product [findOne] returns is a product of the catalogue and has
    the identifier asked for: it is never a default or empty product. *)
Theorem findOne_never_default (cat : list Product) (id : string) (p : Product) :
  source = Resolved cat → findOne ctrl id = Resolved p →
  p ∈ cat ∧ productId p = id.
Proof.
  intros Hsrc Hp. handler_spec Hspec with Hsrc. rewrite Hp in Hspec.
  by apply getProduct_spec_Resolved_inv.
Qed.

(** C34: a product [findOne] returns is among the products the unfiltered
    [findAll] returns: both handlers answer from the same catalogue. *)
Theorem findOne_in_findAll (id : string) (p : Product) :
  findOne ctrl id = Resolved p →
  ∃ l, findAll ctrl None None = Resolved l ∧ p ∈ l.
Proof.
  intros Hp. unfold findAll, findOne in *.
  pose proof (service_findOne_spec (productsService ctrl) id) as Hone.
  pose proof (service_findAll_spec (productsService ctrl)
    {| search := None; marketplace := None |}) as Hall.
  rewrite Hp in Hone. inversion Hone as [cat ? Hin ? Hsrc| |]; subst.
  rewrite <-Hsrc in Hall. apply listProducts_spec_Resolved in Hall as ->.
  eexists; split; [done|]. apply list_elem_of_filter. auto with pq.
Qed.

(** ** Errors *)

(** C16: when reading the data source fails with an error, both handlers
    reject with that error, unmodified. *)
Theorem retrieval_failure_propagates (e : ServiceError)
    (s m : option string) (id : string) :
  source = Rejected e →
  findAll ctrl s m = Rejected e ∧ findOne ctrl id = Rejected e.
Proof.
  intros Hsrc. split; handler_spec Hspec with Hsrc.
  - by apply listProducts_spec_Rejected in Hspec.
  - by apply getProduct_spec_failed_inv in Hspec.
Qed.

(** C36: [findAll] fails only when reading the data source fails, and then
    with the error of the read; it never reports [NotFound] of its own. *)
Theorem findAll_rejects_only_on_failure (s m : option string) (e : ServiceError) :
  findAll ctrl s m = Rejected e → source = Rejected e.
Proof.
  intros He. handler_spec Hspec.
  by eapply listProducts_spec_Rejected_inv.
Qed.

End Contract.

(** ** The specification's example, and the witnesses *)

(** The handlers evaluated on the catalogue of the specification's
    example over the in-memory service: the search term
    "mug" returns both products, the marketplace "A" returns the first,
    the identifier "2" returns the second and the identifier "99" is not
    found. *)
Example mugShop_example :
  findAll mugShop (Some "mug") None = Resolved [redMug; blueMug] ∧
  findAll mugShop None (Some "A") = Resolved [redMug] ∧
  findOne mugShop "2" = Resolved blueMug ∧
  findOne mugShop "99" = Rejected NotFound.
Proof. repeat split; by vm_compute. Qed.

Lemma findAll_unfiltered_full_catalog_witness :
  findAll mugShop None None = Resolved mugs.
Proof. by apply (findAll_unfiltered_full_catalog mugShop mugs). Defined.

Lemma findAll_marketplace_sound_witness :
  findAll mugShop (Some "mug") (Some "A") = Resolved [redMug] ∧
  productMarketplace redMug = "A".
Proof.
  split; [by vm_compute|].
  apply (findAll_marketplace_sound mugShop (Some "mug") "A" mugs [redMug] redMug);
    [done | by vm_compute | by left].
Defined.

Lemma findAll_search_complete_witness :
  ∃ l, findAll mugShop (Some "d M") None = Resolved l ∧ redMug ∈ l.
Proof.
  apply (findAll_search_complete mugShop "d M" mugs redMug); [done | by left |].
  by exists "Re", "ug".
Defined.

Lemma findAll_elem_of_witness :
  blueMug ∈ [blueMug] ↔
  blueMug ∈ mugs ∧ MatchesSearch (Some "BLUE") blueMug ∧
  MatchesMarketplace None blueMug.
Proof.
  by apply (findAll_elem_of mugShop (Some "BLUE") None mugs [blueMug] blueMug).
Defined.

Lemma findAll_order_stable_witness :
  [blueMug] `sublist_of` mugs ∧ (UniqueIds mugs → UniqueIds [blueMug]).
Proof.
  by apply (findAll_order_stable mugShop None (Some "B") mugs [blueMug]).
Defined.

Lemma findAll_no_match_empty_witness :
  findAll mugShop (Some "plate") None = Resolved [].
Proof.
  apply (findAll_no_match_empty mugShop (Some "plate") None mugs); [done|].
  apply Forall_forall. by apply (bool_decide_unpack _).
Defined.

Lemma findAll_case_insensitive_witness :
  findAll mugShop (Some "MUG") None = findAll mugShop (Some "mug") None.
Proof. by apply (findAll_case_insensitive mugShop "MUG" "mug" None). Defined.

Lemma findAll_filters_conjoin_witness :
  redMug ∈ [redMug] ↔ redMug ∈ mugs ∧ redMug ∈ [redMug].
Proof.
  by apply (findAll_filters_conjoin mugShop (Some "mug") (Some "A") mugs
    [redMug] mugs [redMug] redMug).
Defined.

Lemma findAll_search_narrows_witness : [blueMug] `sublist_of` mugs.
Proof.
  apply (findAll_search_narrows mugShop "mug" "blue mug" None mugs mugs [blueMug]);
    [done | by exists "blue ", "" | done..].
Defined.

Lemma findOne_roundtrip_witness :
  findOne mugShop (productId blueMug) = Resolved blueMug.
Proof.
  apply (findOne_roundtrip mugShop mugs blueMug);
    [done | exact mugs_UniqueIds | by right; left].
Defined.

Lemma findOne_absent_NotFound_witness :
  findOne mugShop "99" = Rejected NotFound.
Proof.
  apply (findOne_absent_NotFound mugShop mugs "99"); [done|].
  by apply (bool_decide_unpack _).
Defined.

Lemma findOne_never_default_witness :
  blueMug ∈ mugs ∧ productId blueMug = "2".
Proof. by apply (findOne_never_default mugShop mugs "2" blueMug). Defined.

Lemma findOne_in_findAll_witness :
  ∃ l, findAll mugShop None None = Resolved l ∧ redMug ∈ l.
Proof. by apply (findOne_in_findAll mugShop "1" redMug). Defined.

Lemma retrieval_failure_propagates_witness :
  findAll brokenShop (Some "mug") None = Rejected RetrievalFailure ∧
  findOne brokenShop "1" = Rejected RetrievalFailure.
Proof.
  by apply (retrieval_failure_propagates brokenShop RetrievalFailure
    (Some "mug") None "1").
Defined.

Lemma findAll_rejects_only_on_failure_witness :
  dataSource (productsService brokenShop) = Rejected RetrievalFailure.
Proof.
  by apply (findAll_rejects_only_on_failure brokenShop None None RetrievalFailure).
Defined.
