(* ===== verification/Routes.v ===== *)
(** * Routes: what the decorators of the controller declare

    The decorators of [products.controller.ts] as data, in the order of the
    class body:

    - [controllerPath]: [@Controller('products')] (line 4);
    - [findAllRoute]: [@Get()] on [findAll], whose two parameters are bound
      by [@Query('search')] and [@Query('marketplace')] (lines 8-12);
    - [findOneRoute]: [@Get(':id')] on [findOne], whose parameter is bound
      by [@Param('id')] (lines 16-17);
    - [routes]: the routes of the class, in declaration order;
    - [ParamDecl], [parameters], [arity]: the signatures of the two
      handlers, with the optional marks of lines 10, 11 and 17.

    [accepts] is not code: TypeScript erases the optional marks, and no
    test of them runs.  It says which argument lists respect a signature,
    so that [Http] can state that the routing respects it.

    A path is the list of its segments: ['products'] is [["products"]], the
    empty path of [@Get()] is [[]] and [':id'] is [[":id"]].  The HTTP
    method of a route is its name as a string.

    The lemmas are the well-formedness of this table: each handler has one
    route, and a route has one parameter decorator for each parameter of
    its handler. *)

From S2P Require Import Prelude Controller.

(** ** Decorators *)

(** A parameter decorator: where the argument of a handler parameter comes
    from. *)
Inductive ParamDecorator : Type :=
| Query (key : string)
| Param (key : string).

#[export] Instance ParamDecorator_eq_dec : EqDecision ParamDecorator.
Proof. solve_decision. Defined.

(** The handler methods of the class. *)
Inductive Handler : Type :=
| FindAll
| FindOne.

#[export] Instance Handler_eq_dec : EqDecision Handler.
Proof. solve_decision. Defined.

(** What the decorators on one method declare. *)
Record Route : Type := {
  routeMethod : string;
  routePath : list string;
  routeParams : list ParamDecorator;
  routeHandler : Handler
}.

#[export] Instance Route_eq_dec : EqDecision Route.
Proof. solve_decision. Defined.

(** ** The table *)

Definition controllerPath : list string := ["products"].

Definition findAllRoute : Route := {|
  routeMethod := "GET";
  routePath := [];
  routeParams := [Query "search"; Query "marketplace"];
  routeHandler := FindAll
|}.

Definition findOneRoute : Route := {|
  routeMethod := "GET";
  routePath := [":id"];
  routeParams := [Param "id"];
  routeHandler := FindOne
|}.

Definition routes : list Route := [findAllRoute; findOneRoute].

(** ** The signatures of the handlers *)

(** A parameter of a handler method: its name, and whether it is declared
    optional, as [search?: string] is and [id: string] is not. *)
Record ParamDecl : Type := {
  paramName : string;
  paramOptional : bool
}.

#[export] Instance ParamDecl_eq_dec : EqDecision ParamDecl.
Proof. solve_decision. Defined.

(** The parameters of each handler, in their order. *)
Definition parameters (h : Handler) : list ParamDecl :=
  match h with
  | FindAll => [ {| paramName := "search"; paramOptional := true |};
                 {| paramName := "marketplace"; paramOptional := true |} ]
  | FindOne => [ {| paramName := "id"; paramOptional := false |} ]
  end.

(** The number of parameters of a handler method. *)
Definition arity (h : Handler) : nat :=
  match h with FindAll => 2 | FindOne => 1 end.

(** An argument list respects a parameter list: one argument for each
    parameter, present where the parameter is not optional. *)
Fixpoint accepts (ps : list ParamDecl) (args : list (option string)) : bool :=
  match ps, args with
  | [], [] => true
  | p :: ps, arg :: args =>
      (paramOptional p || bool_decide (is_Some arg)) && accepts ps args
  | _, _ => false
  end.

(** ** Well-formedness of the table *)

(** Every parameter of a handler has its decorator. *)
Lemma routes_arity : Forall (λ r, length (routeParams r) = arity (routeHandler r)) routes.
Proof. by apply (bool_decide_unpack _). Qed.

(** Each handler has one route. *)
Lemma routes_handlers_NoDup : NoDup (routeHandler <$> routes).
Proof. by apply (bool_decide_unpack _). Qed.

Lemma arity_parameters (h : Handler) : arity h = length (parameters h).
Proof. by destruct h. Qed.

Lemma accepts_length (ps : list ParamDecl) (args : list (option string)) :
  accepts ps args → length args = length ps.
Proof.
  revert args. induction ps as [|p ps IH]; intros [|arg args]; simpl; try done.
  intros [_ ?]%andb_True. f_equal. by apply IH.
Qed.

Lemma elem_of_routes (r : Route) :
  r ∈ routes ↔ r = findAllRoute ∨ r = findOneRoute.
Proof. unfold routes. rewrite !elem_of_cons, elem_of_nil. tauto. Qed.
