(* ===== verification/Http.v ===== *)
(** * Http: dispatching a request to a handler

    The part of the framework the decorators of [Routes] rely on.  None of
    it is code of the repository: it is modelled from the HTTP surface the
    specification documents (GET /products with the query parameters search
    and marketplace, GET /products/:id).

    - [Request]: the method, the path as its list of segments, and the
      parsed query string;
    - [matchPath]: a route pattern against a request path; a segment
      [":name"] matches any non-empty segment and binds [name] to it, any
      other segment matches itself.  That a parameter segment is never
      empty is how the framework's router behaves; the specification does
      not say it, and [plan_never_empty_id] rests on it;
    - [routeMatch]: method and path of a route against a request;
    - [argument]: the value a parameter decorator extracts;
    - [dispatch]: the first route of the table that matches is served: its
      handler is called with the arguments its parameter decorators
      extract.  The result is [None] when no route matches, and also when
      the arguments do not fit the handler ([findOne] without a value for
      [id]), a call the framework would make with [undefined];
      [dispatch_well_typed] shows that the routes of the controller never
      lead there.

    [ServiceCall], [echoService] and [plan] are devices of the development,
    not code: the service that answers every call with the call itself
    makes the call a request results in a value that theorems can speak of.

    The theorems say which requests reach which handler with which
    arguments, that the arguments fit the handlers' signatures, and which
    calls on the service requests can and cannot result in.

    Not modelled: method and path normalisation (case, trailing slashes,
    percent-decoding), repeated query keys, and the encoding of the result
    as a response. *)

From stdpp Require Import gmap.
From S2P Require Import Prelude Controller Routes.

(** ** Requests *)

Record Request : Type := {
  reqMethod : string;
  reqPath : list string;
  reqQuery : gmap string string
}.

(** ** Matching *)

Fixpoint matchPath (pattern path : list string) : option (gmap string string) :=
  match pattern, path with
  | [], [] => Some ∅
  | pat :: pattern', segment :: path' =>
      match pat with
      | String ":" name =>
          if decide (segment = "") then None
          else (λ params, <[name := segment]> params) <$> matchPath pattern' path'
      | _ =>
          if decide (pat = segment) then matchPath pattern' path' else None
      end
  | _, _ => None
  end.

Definition routeMatch (r : Route) (req : Request) : option (gmap string string) :=
  if decide (routeMethod r = reqMethod req)
  then matchPath (controllerPath ++ routePath r) (reqPath req)
  else None.

Definition argument (req : Request) (params : gmap string string)
    (d : ParamDecorator) : option string :=
  match d with
  | Query key => reqQuery req !! key
  | Param key => params !! key
  end.

(** ** Dispatch *)

Section Dispatch.
Context {Svc RA RO : Type} `{!ProductsService Svc RA RO}.

Fixpoint dispatch (this : ProductsController Svc) (table : list Route)
    (req : Request) : option (RA + RO) :=
  match table with
  | [] => None
  | r :: table' =>
      match routeMatch r req with
      | Some params =>
          match routeHandler r, argument req params <$> routeParams r with
          | FindAll, [search; marketplace] =>
              Some (inl (findAll this search marketplace))
          | FindOne, [Some id] => Some (inr (findOne this id))
          | _, _ => None
          end
      | None => dispatch this table' req
      end
  end.

End Dispatch.

(** ** The requests the table serves *)

(** GET /products *)
Definition ListRequest (req : Request) : Prop :=
  reqMethod req = "GET" ∧ reqPath req = ["products"].

(** GET /products/:id; [id] is the last segment. *)
Definition GetRequest (id : string) (req : Request) : Prop :=
  reqMethod req = "GET" ∧ reqPath req = ["products"; id] ∧ id ≠ "".

(** ** Matching: lemmas *)

(** A pattern matches paths of its own length only. *)
Lemma matchPath_length (pattern path : list string) (params : gmap string string) :
  matchPath pattern path = Some params → length path = length pattern.
Proof.
  revert path params. induction pattern as [|pat pattern IH];
    intros [|segment path] params; simpl; try done.
  destruct pat as [|c name]; [|destruct c as [[] [] [] [] [] [] [] []]];
    repeat case_decide; try done;
    try (intros (? & ? & _)%fmap_Some); intros; f_equal; eauto.
Qed.

(** The route of [findAll] matches the requests GET /products, and binds
    nothing. *)
Lemma routeMatch_findAllRoute (req : Request) (params : gmap string string) :
  routeMatch findAllRoute req = Some params ↔ ListRequest req ∧ params = ∅.
Proof.
  unfold routeMatch, ListRequest; simpl.
  destruct (reqPath req) as [|s [|??]]; repeat case_decide;
    intuition congruence.
Qed.

(** The route of [findOne] matches the requests GET /products/:id, and
    binds [id] to the last segment. *)
Lemma routeMatch_findOneRoute (req : Request) (params : gmap string string) :
  routeMatch findOneRoute req = Some params ↔
  ∃ id, GetRequest id req ∧ params = {["id" := id]}.
Proof.
  unfold routeMatch, GetRequest; simpl.
  destruct (reqPath req) as [|s [|id [|??]]]; repeat case_decide;
    (split; [intros [= <-] | intros (? & (? & ? & ?) & ->)]);
    simplify_eq; eauto 6.
Qed.

Lemma ListRequest_not_GetRequest (id : string) (req : Request) :
  ListRequest req → ¬ GetRequest id req.
Proof. intros [_ Hp] (_ & Hp' & _). congruence. Qed.

Lemma GetRequest_functional (id1 id2 : string) (req : Request) :
  GetRequest id1 req → GetRequest id2 req → id1 = id2.
Proof. intros (_ & Hp & _) (_ & Hp' & _). congruence. Qed.

(** Both kinds of request are decided by the method and the path. *)
Lemma ListRequest_ext (req1 req2 : Request) :
  reqMethod req1 = reqMethod req2 → reqPath req1 = reqPath req2 →
  ListRequest req1 → ListRequest req2.
Proof. unfold ListRequest. by intros <- <-. Qed.

Lemma GetRequest_ext (id : string) (req1 req2 : Request) :
  reqMethod req1 = reqMethod req2 → reqPath req1 = reqPath req2 →
  GetRequest id req1 → GetRequest id req2.
Proof. unfold GetRequest. by intros <- <-. Qed.

(** ** Dispatch over a table: lemmas *)

Section DispatchTable.
Context {Svc RA RO : Type} `{!ProductsService Svc RA RO}.
Context (this : ProductsController Svc) (req : Request).

Lemma dispatch_no_match (table : list Route) :
  (∀ r, r ∈ table → routeMatch r req = None) →
  dispatch this table req = None.
Proof.
  induction table as [|r table IH]; intros Hnone; simpl; [done|].
  rewrite (Hnone r) by left. apply IH. intros r' Hr'. apply Hnone. by right.
Qed.

(** When one route of the table matches and no other does, dispatch
    serves that route, wherever it stands in the table. *)
Lemma dispatch_unique_match (table : list Route) (r : Route)
    (params : gmap string string) :
  r ∈ table → routeMatch r req = Some params →
  (∀ r', r' ∈ table → is_Some (routeMatch r' req) → r' = r) →
  dispatch this table req = dispatch this [r] req.
Proof.
  intros Hr Hmatch Huniq. induction table as [|r0 table IH].
  { by apply elem_of_nil in Hr. }
  destruct (decide (r0 = r)) as [->|Hne].
  { cbn [dispatch]. by rewrite Hmatch. }
  assert (routeMatch r0 req = None) as E0.
  { apply eq_None_not_Some. intros Hsome. by apply Hne, Huniq; [left|]. }
  transitivity (dispatch this table req); [cbn [dispatch]; by rewrite E0|].
  apply IH.
  - by apply elem_of_cons in Hr as [->|Hr].
  - intros r' Hr'. apply Huniq. by right.
Qed.

End DispatchTable.

(** ** The routes of the controller *)

(** No request matches both routes. *)
Lemma routes_unambiguous (req : Request) (r1 r2 : Route) :
  r1 ∈ routes → r2 ∈ routes →
  is_Some (routeMatch r1 req) → is_Some (routeMatch r2 req) → r1 = r2.
Proof.
  rewrite !elem_of_routes. intros [-> | ->] [-> | ->] [p1 H1] [p2 H2]; try done.
  - apply routeMatch_findAllRoute in H1 as [Hl _].
    apply routeMatch_findOneRoute in H2 as (id & Hg & _).
    by destruct (ListRequest_not_GetRequest id req).
  - apply routeMatch_findAllRoute in H2 as [Hl _].
    apply routeMatch_findOneRoute in H1 as (id & Hg & _).
    by destruct (ListRequest_not_GetRequest id req).
Qed.

(** ** The calls a request results in *)

(** The two calls the handlers make on the service, as values. *)
Inductive ServiceCall : Type :=
| FindAllCall (q : FindAllQuery)
| FindOneCall (id : string).

#[export] Instance ServiceCall_eq_dec : EqDecision ServiceCall.
Proof. solve_decision. Defined.

(** The service that answers every call with the call itself, and the
    controller over it: what this controller returns is the call the
    handler made. *)
#[export] Instance echoService : ProductsService unit ServiceCall ServiceCall := {
  service_findAll _ q := FindAllCall q;
  service_findOne _ id := FindOneCall id
}.

Definition echo : ProductsController unit := {| productsService := () |}.

(** The call a request results in, if it is routed. *)
Definition plan (req : Request) : option ServiceCall :=
  sum_rect (λ _, ServiceCall) id id <$> dispatch echo routes req.

(** ** The two routes *)

Section TwoRoutes.
Context {Svc RA RO : Type} `{!ProductsService Svc RA RO}.
Context (this : ProductsController Svc).

(** C3: a request GET /products is dispatched to [findAll], with the query
    parameter [search] as its first argument and the query parameter
    [marketplace] as its second; a parameter the query string lacks is
    absent. *)
Theorem dispatch_list_request (req : Request) :
  ListRequest req →
  dispatch this routes req
  = Some (inl (findAll this (reqQuery req !! "search")
                            (reqQuery req !! "marketplace"))).
Proof.
  intros Hreq.
  assert (routeMatch findAllRoute req = Some ∅) as Hmatch
    by (by apply routeMatch_findAllRoute).
  rewrite (dispatch_unique_match this req routes findAllRoute ∅);
    [| by left | done |].
  - cbn [dispatch]. by rewrite Hmatch.
  - intros r' Hr' Hmatch'. eapply routes_unambiguous; [done | by left | done |].
    by rewrite Hmatch.
Qed.

(** C4: a request GET /products/:id is dispatched to [findOne], with the
    last path segment as its argument, whatever the query string. *)
Theorem dispatch_get_request (id : string) (req : Request) :
  GetRequest id req →
  dispatch this routes req = Some (inr (findOne this id)).
Proof.
  intros Hreq.
  assert (routeMatch findOneRoute req = Some {["id" := id]}) as Hmatch
    by (apply routeMatch_findOneRoute; eauto).
  rewrite (dispatch_unique_match this req routes findOneRoute {["id" := id]});
    [| by right; left | done |].
  - cbn [dispatch]. rewrite Hmatch. simpl. by rewrite lookup_singleton_eq.
  - intros r' Hr' Hmatch'. eapply routes_unambiguous; [done | by right; left | done |].
    by rewrite Hmatch.
Qed.

End TwoRoutes.

(** ** The routing of the controller, as a specification *)

Section Routing.
Context {Svc RA RO : Type} `{!ProductsService Svc RA RO}.
Context (this : ProductsController Svc).

(** What dispatching a request over the controller's routes yields. *)
Inductive dispatch_spec (req : Request) : option (RA + RO) → Prop :=
| dispatch_spec_list :
    ListRequest req →
    dispatch_spec req
      (Some (inl (findAll this (reqQuery req !! "search")
                               (reqQuery req !! "marketplace"))))
| dispatch_spec_get id :
    GetRequest id req →
    dispatch_spec req (Some (inr (findOne this id)))
| dispatch_spec_none :
    ¬ ListRequest req → (∀ id, ¬ GetRequest id req) →
    dispatch_spec req None.

Lemma dispatchP (req : Request) : dispatch_spec req (dispatch this routes req).
Proof.
  simpl. destruct (routeMatch findAllRoute req) as [p1|] eqn:E1.
  { apply routeMatch_findAllRoute in E1 as [Hl ->]. by constructor. }
  destruct (routeMatch findOneRoute req) as [p2|] eqn:E2.
  { apply routeMatch_findOneRoute in E2 as (id & Hg & ->); simpl.
    rewrite lookup_singleton_eq. by constructor. }
  constructor.
  - intros Hl. by rewrite (proj2 (routeMatch_findAllRoute req ∅)) in E1.
  - intros id Hg.
    by rewrite (proj2 (routeMatch_findOneRoute req {["id" := id]})) in E2; eauto.
Qed.

End Routing.

(** [dispatch_cases this req as Hl id Hg] splits on the three cases of
    [dispatchP]: [Hl] is the hypothesis on a listing, [id] and [Hg] the
    identifier and the hypothesis of a lookup, [Hl] and [Hg] the two
    negations for a request that is not routed.  It closes the cases that
    contradict the hypotheses already there. *)
Ltac dispatch_cases_as this req Hl id Hg :=
  destruct (dispatchP this req) as [Hl|id Hg|Hl Hg];
  try match goal with
  | H1 : ListRequest req, H2 : GetRequest _ req |- _ =>
      destruct (ListRequest_not_GetRequest _ _ H1 H2)
  | H1 : ListRequest req, H2 : ¬ ListRequest req |- _ => destruct (H2 H1)
  | H1 : GetRequest ?i req, H2 : ∀ id, ¬ GetRequest id req |- _ =>
      destruct (H2 i H1)
  end.

Tactic Notation "dispatch_cases" constr(this) constr(req)
    "as" ident(Hl) ident(id) ident(Hg) :=
  dispatch_cases_as this req Hl id Hg.

Section Served.
Context {Svc RA RO : Type} `{!ProductsService Svc RA RO}.
Context (this : ProductsController Svc).

(** C5: the controller serves the requests GET /products and
    GET /products/:id and no other: every other method or path reaches no
    handler. *)
Theorem dispatch_serves_exactly (req : Request) :
  is_Some (dispatch this routes req) ↔
  ListRequest req ∨ ∃ id, GetRequest id req.
Proof.
  dispatch_cases this req as Hl id Hg; split; eauto.
  - by intros [??].
  - intros [?|[??]]; [done | by edestruct Hg].
Qed.

(** C24: the order in which the class declares its routes does not matter:
    every reordering of the table dispatches every request alike. *)
Theorem dispatch_order_irrelevant (table : list Route) (req : Request) :
  table ≡ₚ routes → dispatch this table req = dispatch this routes req.
Proof.
  intros Hperm.
  assert (∀ r, r ∈ table ↔ r ∈ routes) as Hin by (intros r; by rewrite Hperm).
  destruct (decide (Exists (λ r, is_Some (routeMatch r req)) routes)) as [Hex|Hno].
  - apply Exists_exists in Hex as (r & Hr & [params Hmatch]).
    rewrite (dispatch_unique_match this req table r params),
      (dispatch_unique_match this req routes r params); try done.
    + intros r' Hr' ?. by eapply routes_unambiguous.
    + by apply Hin.
    + intros r' Hr'%Hin ?. by eapply routes_unambiguous.
  - rewrite <-Forall_Exists_neg, Forall_forall in Hno.
    rewrite !dispatch_no_match; [done|..]; intros r Hr; apply eq_None_not_Some;
      apply Hno; first [done | by apply Hin].
Qed.

(** C27: the answer depends on the method, the path and the two query
    parameters [search] and [marketplace] only: requests that agree on
    these are dispatched alike, whatever else their query strings hold. *)
Theorem dispatch_reads_declared_inputs (req1 req2 : Request) :
  reqMethod req1 = reqMethod req2 → reqPath req1 = reqPath req2 →
  reqQuery req1 !! "search" = reqQuery req2 !! "search" →
  reqQuery req1 !! "marketplace" = reqQuery req2 !! "marketplace" →
  dispatch this routes req1 = dispatch this routes req2.
Proof.
  intros Hm Hp Hs Hmk.
  dispatch_cases this req1 as Hl1 id1 Hg1;
    [pose proof (ListRequest_ext _ _ Hm Hp Hl1)
    |pose proof (GetRequest_ext _ _ _ Hm Hp Hg1)|];
    dispatch_cases this req2 as Hl2 id2 Hg2; try congruence.
  - by rewrite (GetRequest_functional id1 id2 req2).
  - by destruct Hl1; eapply ListRequest_ext.
  - by edestruct Hg1; eapply GetRequest_ext.
Qed.

End Served.

(** ** What the routing guarantees to the handlers and to the service *)

(** Each parameter decorator carries the name of the parameter it is
    written on. *)
Lemma routes_keys :
  Forall (λ r, Forall2 (λ d p, match d with Query key | Param key => key = paramName p end)
                 (routeParams r) (parameters (routeHandler r))) routes.
Proof. repeat constructor. Qed.

(** C17: the routing never calls a handler against its signature: the
    arguments the decorators of a matching route extract from the request
    fit the parameters of its handler, so a parameter that is not optional
    always receives a value. *)
Theorem dispatch_well_typed (r : Route) (req : Request)
    (params : gmap string string) :
  r ∈ routes → routeMatch r req = Some params →
  accepts (parameters (routeHandler r)) (argument req params <$> routeParams r).
Proof.
  intros [-> | ->]%elem_of_routes Hmatch; simpl; [done|].
  apply routeMatch_findOneRoute in Hmatch as (id & _ & ->).
  by rewrite lookup_singleton_eq.
Qed.

(** C25: no request makes the controller look up the empty identifier: the
    route of [findOne] matches non-empty segments only, so the service's
    precondition on [findOne] holds for every call that reaches it. *)
Theorem plan_never_empty_id (req : Request) : plan req ≠ Some (FindOneCall "").
Proof.
  unfold plan. dispatch_cases echo req as Hl id Hg; simpl; try done.
  destruct Hg as (_ & _ & Hid). by intros [= ->].
Qed.

(** C26: every call of the service interface is reachable: each filter of
    [findAll] and each non-empty identifier of [findOne] is the call some
    request results in. *)
Theorem plan_reaches_every_call (call : ServiceCall) :
  call ≠ FindOneCall "" → ∃ req, plan req = Some call.
Proof.
  intros Hcall. unfold plan. destruct call as [[s m]|id].
  - set (query := (from_option (λ s, {["search" := s]}) ∅ s
                   ∪ from_option (λ m, {["marketplace" := m]}) ∅ m
                   : gmap string string)).
    set (req := {| reqMethod := "GET"; reqPath := ["products"]; reqQuery := query |}).
    assert (ListRequest req) as Hreq by done.
    exists req. dispatch_cases echo req as Hl id Hg. simpl. do 3 f_equal;
      unfold query; destruct s, m; simpl; by simplify_map_eq.
  - set (req := {| reqMethod := "GET"; reqPath := ["products"; id]; reqQuery := ∅ |}).
    assert (GetRequest id req) as Hreq by (split_and!; [done..|]; by intros ->).
    exists req. dispatch_cases echo req as Hl id' Hg.
    by rewrite (GetRequest_functional id id' req).
Qed.

(** ** Witnesses *)

Definition mugSearch : Request := {|
  reqMethod := "GET";
  reqPath := ["products"];
  reqQuery := {["search" := "mug"]}
|}.

Definition getTwo : Request := {|
  reqMethod := "GET";
  reqPath := ["products"; "2"];
  reqQuery := ∅
|}.

Lemma dispatch_list_request_witness :
  dispatch echo routes mugSearch
  = Some (inl (findAll echo (Some "mug") None)).
Proof. by apply (dispatch_list_request echo mugSearch). Defined.

Lemma dispatch_get_request_witness :
  dispatch echo routes getTwo = Some (inr (findOne echo "2")).
Proof. by apply (dispatch_get_request echo "2" getTwo). Defined.

Lemma dispatch_order_irrelevant_witness :
  dispatch echo [findOneRoute; findAllRoute] getTwo
  = dispatch echo routes getTwo.
Proof.
  apply (dispatch_order_irrelevant echo [findOneRoute; findAllRoute] getTwo).
  apply perm_swap.
Defined.

Lemma plan_reaches_every_call_witness :
  ∃ req, plan req = Some (FindOneCall "2").
Proof. by apply (plan_reaches_every_call (FindOneCall "2")). Defined.

Lemma dispatch_well_typed_witness :
  accepts (parameters (routeHandler findOneRoute))
    (argument getTwo {["id" := "2"]} <$> routeParams findOneRoute).
Proof.
  apply (dispatch_well_typed findOneRoute getTwo {["id" := "2"]});
    [by right; left | by vm_compute].
Defined.

Lemma dispatch_reads_declared_inputs_witness :
  dispatch echo routes
    {| reqMethod := "GET"; reqPath := ["products"];
       reqQuery := {["search" := "mug"; "page" := "2"]} |}
  = dispatch echo routes mugSearch.
Proof. by apply (dispatch_reads_declared_inputs echo). Defined.
