(* ===== verification/Api.v ===== *)
(** * Api: the HTTP surface meets the specification

    [Http] says which handler a request reaches and [Endpoints] what the
    handler returns; this file puts the two together, for a controller
    over a service that meets the contract of [QuerySpec]:

    - [requestFilter], [api_spec]: what the specification prescribes as
      the answer to a request, in terms of [listProducts_spec] and
      [getProduct_spec]; neither is a translation of code, they are what
      the code is checked against;
    - [apiP]: dispatching a request yields an answer that [api_spec]
      allows;
    - the theorems read the specification's HTTP surface off it and
      compare the controller with the controller over the in-memory
      service; the example serves four requests on the example
      catalogue. *)

From stdpp Require Import gmap.
From S2P Require Import Prelude Text Controller QuerySpec Catalog Endpoints.
From S2P Require Import Routes Http.

Section Api.
Context {Svc : Type}.
Context `{!ProductsService Svc (Outcome (list Product)) (Outcome Product)}.
Context `{!ProductQueryService Svc}.
Context (ctrl : ProductsController Svc).

Local Abbreviation source := (dataSource (productsService ctrl)).

(** The filter the specification's HTTP surface gives a request to
    GET /products: its query parameters search and marketplace. *)
Definition requestFilter (req : Request) : FindAllQuery :=
  {| search := reqQuery req !! "search";
     marketplace := reqQuery req !! "marketplace" |}.

Inductive api_spec (req : Request) :
    option (Outcome (list Product) + Outcome Product) → Prop :=
| api_spec_list out :
    ListRequest req →
    listProducts_spec (requestFilter req) source out →
    api_spec req (Some (inl out))
| api_spec_get id out :
    GetRequest id req →
    getProduct_spec id source out →
    api_spec req (Some (inr out))
| api_spec_unrouted :
    ¬ ListRequest req → (∀ id, ¬ GetRequest id req) →
    api_spec req None.

Lemma apiP (req : Request) : api_spec req (dispatch ctrl routes req).
Proof.
  dispatch_cases ctrl req as Hl id Hg; econstructor; try done.
  - apply service_findAll_spec.
  - apply service_findOne_spec.
Qed.

(** C6: the answer to every request is the one the specification
    prescribes: a listing for GET /products, filtered by the query
    parameters; a lookup for GET /products/:id; nothing for any other
    request. *)
Theorem http_api_refines_spec (req : Request) :
  match dispatch ctrl routes req with
  | Some (inl out) =>
      ListRequest req ∧ listProducts_spec (requestFilter req) source out
  | Some (inr out) =>
      ∃ id, GetRequest id req ∧ getProduct_spec id source out
  | None => ¬ ListRequest req ∧ ∀ id, ¬ GetRequest id req
  end.
Proof. destruct (apiP req); eauto. Qed.

(** ** The in-memory service as the reference *)

(** The controller answers as the controller over the in-memory service of
    [Catalog] does on the same data: for listings always, for lookups when
    the identifiers of the catalogue are distinct. *)
Lemma findAll_reference (s m : option string) :
  findAll ctrl s m = findAll (new source) s m.
Proof.
  apply (listProducts_spec_functional {| search := s; marketplace := m |} source);
    unfold findAll; [apply service_findAll_spec | apply catalog_findAll_spec].
Qed.

Lemma findOne_reference (id : string) :
  (∀ cat, source = Resolved cat → UniqueIds cat) →
  findOne ctrl id = findOne (new source) id.
Proof.
  intros Huniq. apply (getProduct_spec_functional id source); [done|..];
    unfold findOne; [apply service_findOne_spec | apply catalog_findOne_spec].
Qed.

(** C12: over a catalogue with distinct identifiers, a service that meets
    the contract cannot be told from the in-memory service on the same
    data: every request is answered as the controller over the in-memory
    service answers it. *)
Theorem http_equiv_reference (req : Request) :
  (∀ cat, source = Resolved cat → UniqueIds cat) →
  dispatch ctrl routes req = dispatch (new source) routes req.
Proof.
  intros Huniq. dispatch_cases ctrl req as Hl id Hg;
    dispatch_cases (new source) req as Hl' id' Hg'; try done.
  - by rewrite findAll_reference.
  - by rewrite (GetRequest_functional id id' req), findOne_reference.
Qed.

(** C37: GET /products?marketplace=M answers with products of the
    catalogue that carry the marketplace tag M, whatever else the query
    string holds. *)
Theorem http_marketplace_filter (req : Request) (m : string)
    (cat l : list Product) :
  source = Resolved cat →
  ListRequest req → reqQuery req !! "marketplace" = Some m →
  dispatch ctrl routes req = Some (inl (Resolved l)) →
  Forall (λ p, p ∈ cat ∧ productMarketplace p = m) l.
Proof.
  intros Hsrc Hreq Hm Hl. destruct (apiP req) as [out _ Hspec|id ? Hg|]; try done.
  injection Hl as ->. rewrite Hsrc in Hspec. apply Forall_forall. intros p Hp.
  apply (listProducts_spec_elem_of _ _ _ p) in Hspec. apply Hspec in Hp.
  destruct Hp as (? & _ & Hmp). unfold requestFilter in Hmp; simpl in Hmp.
  by rewrite Hm in Hmp.
Qed.

(** C38: GET /products/:id answers with the product of that identifier
    when the catalogue, with distinct identifiers, has one, and with
    [NotFound] when it has none. *)
Theorem http_get_by_id (req : Request) (id : string) (cat : list Product) :
  source = Resolved cat → UniqueIds cat → GetRequest id req →
  dispatch ctrl routes req
  = Some (inr (from_option Resolved (Rejected NotFound)
                 (List.find (λ p, bool_decide (productId p = id)) cat))).
Proof.
  intros Hsrc Huniq Hreq. destruct (apiP req) as [|id' out Hg Hspec|_ Hng].
  - by destruct (ListRequest_not_GetRequest id req).
  - rewrite <-(GetRequest_functional id id' req), Hsrc in Hspec by done.
    do 2 f_equal. destruct (List.find _ cat) as [p|] eqn:E; simpl.
    + apply find_Some_elem_of in E as [Hp Hid%bool_decide_eq_true].
      subst id. by eapply getProduct_spec_own_id.
    + eapply getProduct_spec_absent; [done|].
      intros (p & -> & Hp)%list_elem_of_fmap.
      apply (proj1 (find_None_iff _ _) E) in Hp. by case_bool_decide.
  - by destruct (Hng id).
Qed.

End Api.

(** ** The example, over HTTP *)

(** On the example catalogue, GET /products?search=mug answers with
    both products, GET /products/2 with the second, GET /products/99 with
    [NotFound], and POST /products reaches no handler. *)
Example mugShop_http_example :
  dispatch mugShop routes mugSearch = Some (inl (Resolved [redMug; blueMug])) ∧
  dispatch mugShop routes getTwo = Some (inr (Resolved blueMug)) ∧
  dispatch mugShop routes
    {| reqMethod := "GET"; reqPath := ["products"; "99"]; reqQuery := ∅ |}
  = Some (inr (Rejected NotFound)) ∧
  dispatch mugShop routes
    {| reqMethod := "POST"; reqPath := ["products"]; reqQuery := ∅ |}
  = None.
Proof. repeat split; by vm_compute. Qed.

(** ** Witnesses *)

Definition marketA : Request := {|
  reqMethod := "GET";
  reqPath := ["products"];
  reqQuery := {["marketplace" := "A"]}
|}.

Lemma http_marketplace_filter_witness :
  Forall (λ p, p ∈ mugs ∧ productMarketplace p = "A") [redMug].
Proof.
  by apply (http_marketplace_filter mugShop marketA "A" mugs [redMug]).
Defined.

Lemma http_equiv_reference_witness :
  dispatch mugShop routes getTwo
  = dispatch (new (dataSource (productsService mugShop))) routes getTwo.
Proof.
  apply (http_equiv_reference mugShop getTwo).
  intros cat [= <-]. exact mugs_UniqueIds.
Defined.

Lemma http_get_by_id_witness :
  dispatch mugShop routes getTwo = Some (inr (Resolved blueMug)).
Proof.
  apply (http_get_by_id mugShop getTwo "2" mugs);
    [done | exact mugs_UniqueIds | done].
Defined.
