(* ===== verification/Server.v ===== *)
(** * Server: concurrent requests over the controller

    The request/response model of the specification's section on
    concurrency: each call is independent and stateless, a call may
    suspend while the data source answers, and no order is required
    between concurrent calls.  None of it is code of the repository.

    - [Server]: the controller, the requests received and not yet handled
      ([inbox]), the calls whose handler has returned a promise that is not
      settled ([pending]), and the responses ([outbox]);
    - [boot svc reqs]: the server at start: the controller is constructed
      over the service ([Controller.new]), the requests wait, nothing is
      pending or answered;
    - [step]: one step of the server, on any request of the inbox or any
      pending call: the request is dispatched to its handler
      ([Http.dispatch] over [Routes.routes]) and the call becomes pending;
      a request that no route matches is answered at once; a pending call
      settles and its result is the response.

    The limits of the model.  The requests are a closed batch: all of them
    are in the inbox at start and none arrives later.  A promise is
    represented by what it settles to, so the result of a call is fixed
    when its handler runs, and every call can settle: there is no call
    that hangs, no timeout and no cancellation.  Termination and the
    bounds on the length of a run are relative to these limits.  The
    products are read-only for the controller; [Ingestion] lets them
    change from outside.

    [tick] and [run] are a scheduler of the development's own, not a part
    of the program: the interleaving that handles the requests one after
    the other, in the order they arrived, as a function with fuel.  It
    yields the run to the end that the theorems need to exist, and runs
    that evaluate.

    The theorems: along every interleaving the controller remains the one
    constructed at start and no request is lost or answered twice; every
    interleaving ends, within a number of steps known from the start;
    when it has ended, every request has its response, the one it would
    get alone, which is the one the specification prescribes. *)

From stdpp Require Import gmap.
From S2P Require Import Prelude Controller Routes Http.
From S2P Require Import QuerySpec Catalog Endpoints Api.

(** The routing is used through its lemmas only. *)
#[local] Arguments dispatch : simpl never.

(** ** The state *)

Record Server (Svc RA RO : Type) : Type := {
  controller : ProductsController Svc;
  inbox : list Request;
  pending : list (Request * (RA + RO));
  outbox : list (Request * option (RA + RO))
}.

Arguments Build_Server {Svc RA RO} _ _ _ _.
Arguments controller {Svc RA RO} _.
Arguments inbox {Svc RA RO} _.
Arguments pending {Svc RA RO} _.
Arguments outbox {Svc RA RO} _.

Abbreviation boot svc requests :=
  {| controller := new svc; inbox := requests; pending := []; outbox := [] |}.

Section Steps.
Context {Svc RA RO : Type} `{!ProductsService Svc RA RO}.

Implicit Types (this : ProductsController Svc) (req : Request).
Implicit Types (st : Server Svc RA RO) (promise : RA + RO).

(** ** The steps *)

Inductive step : relation (Server Svc RA RO) :=
| step_handle this l1 req l2 promise calls out :
    dispatch this routes req = Some promise →
    step {| controller := this; inbox := l1 ++ req :: l2;
            pending := calls; outbox := out |}
         {| controller := this; inbox := l1 ++ l2;
            pending := calls ++ [(req, promise)]; outbox := out |}
| step_unrouted this l1 req l2 calls out :
    dispatch this routes req = None →
    step {| controller := this; inbox := l1 ++ req :: l2;
            pending := calls; outbox := out |}
         {| controller := this; inbox := l1 ++ l2;
            pending := calls; outbox := out ++ [(req, None)] |}
| step_settle this reqs l1 req promise l2 out :
    step {| controller := this; inbox := reqs;
            pending := l1 ++ (req, promise) :: l2; outbox := out |}
         {| controller := this; inbox := reqs;
            pending := l1 ++ l2; outbox := out ++ [(req, Some promise)] |}.

(** ** The schedule in arrival order *)

(** A pending call settles before the next request is handled. *)
Definition tick st : option (Server Svc RA RO) :=
  match pending st, inbox st with
  | (req, promise) :: calls, _ =>
      Some {| controller := controller st; inbox := inbox st;
              pending := calls;
              outbox := outbox st ++ [(req, Some promise)] |}
  | [], req :: reqs =>
      Some match dispatch (controller st) routes req with
           | Some promise =>
               {| controller := controller st; inbox := reqs;
                  pending := [(req, promise)]; outbox := outbox st |}
           | None =>
               {| controller := controller st; inbox := reqs;
                  pending := []; outbox := outbox st ++ [(req, None)] |}
           end
  | [], [] => None
  end.

Fixpoint run (fuel : nat) st : Server Svc RA RO :=
  match fuel with
  | 0 => st
  | S fuel => from_option (run fuel) st (tick st)
  end.

(** ** What the theorems speak of *)

(** The response a request gets when it is served alone. *)
Definition answer this req : Request * option (RA + RO) :=
  (req, dispatch this routes req).

(** The steps a state has left, at most: two for a request of the inbox,
    one for a pending call. *)
Definition work st : nat := 2 * length (inbox st) + length (pending st).

(** What holds of the states of a server started over [svc] with the
    requests [reqs]. *)
Record ServerInv (svc : Svc) (reqs : list Request) st : Prop := {
  inv_controller : controller st = new svc;
  inv_conserved : inbox st ++ (pending st).*1 ++ (outbox st).*1 ≡ₚ reqs;
  inv_pending :
    Forall (λ call, dispatch (new svc) routes call.1 = Some call.2) (pending st);
  inv_outbox : Forall (λ resp, resp = answer (new svc) resp.1) (outbox st)
}.

End Steps.

(** ** One step *)

Section StepFacts.
Context {Svc RA RO : Type} `{!ProductsService Svc RA RO}.

Implicit Types (this : ProductsController Svc) (req : Request).
Implicit Types (st : Server Svc RA RO) (reqs : list Request).

Lemma step_work st st' : step st st' → work st' < work st.
Proof. destruct 1; unfold work; simpl; rewrite !length_app; simpl; lia. Qed.

(** A server stands still when nothing is left to handle or to settle,
    and only then. *)
Lemma nf_step st : nf step st ↔ inbox st = [] ∧ pending st = [].
Proof.
  split.
  - destruct st as [this [|req reqs] [|[req' promise] calls] out];
      intros Hnf; [done|exfalso; apply Hnf..].
    + eexists. apply (step_settle this [] [] req' promise calls out).
    + destruct (dispatch this routes req) as [promise|] eqn:E; eexists.
      * by apply (step_handle this [] req reqs promise [] out).
      * by apply (step_unrouted this [] req reqs [] out).
    + eexists. apply (step_settle this (req :: reqs) [] req' promise calls out).
  - intros [Hin Hcalls] [st' Hstep].
    destruct Hstep; simpl in *; by eapply app_cons_not_nil.
Qed.

Lemma ServerInv_boot (svc : Svc) reqs : ServerInv svc reqs (boot svc reqs).
Proof. split; simpl; [done | by rewrite app_nil_r | done..]. Qed.

Lemma ServerInv_step (svc : Svc) reqs st st' :
  ServerInv svc reqs st → step st st' → ServerInv svc reqs st'.
Proof.
  intros [Hthis Hreqs Hcalls Hout] Hstep.
  destruct Hstep; simpl in *; subst; split; simpl;
    rewrite ?fmap_app, ?Forall_app, ?Forall_cons, ?Forall_nil in *;
    simpl in *; try (rewrite <-Hreqs; solve_Permutation);
    unfold answer in *; intuition congruence.
Qed.

Lemma ServerInv_rtc (svc : Svc) reqs st :
  rtc step (boot svc reqs) st → ServerInv svc reqs st.
Proof.
  apply (rtc_invariant step); [apply ServerInv_step | apply ServerInv_boot].
Qed.

End StepFacts.

(** ** The schedule *)

Section Schedule.
Context {Svc RA RO : Type} `{!ProductsService Svc RA RO}.

Implicit Types (this : ProductsController Svc) (req : Request).
Implicit Types (st : Server Svc RA RO) (reqs : list Request).

(** A tick of the schedule is a step of the server. *)
Lemma tick_step st st' : tick st = Some st' → step st st'.
Proof.
  destruct st as [this reqs [|[req' promise] calls] out]; unfold tick; simpl.
  - destruct reqs as [|req reqs]; [done|]. intros [= <-].
    destruct (dispatch this routes req) as [promise|] eqn:E.
    + by apply (step_handle this [] req reqs promise [] out).
    + by apply (step_unrouted this [] req reqs [] out).
  - intros [= <-]. apply (step_settle this reqs [] req' promise calls out).
Qed.

Lemma tick_None st : tick st = None → nf step st.
Proof.
  intros Htick. apply nf_step. unfold tick in Htick.
  by destruct (pending st) as [|[??]?], (inbox st).
Qed.

(** The schedule is one of the interleavings. *)
Lemma run_rtc (fuel : nat) st : rtc step st (run fuel st).
Proof.
  revert st. induction fuel as [|fuel IH]; intros st; simpl; [done|].
  destruct (tick st) as [st'|] eqn:E; simpl; [|done].
  eapply rtc_l; [by apply tick_step | apply IH].
Qed.

(** With fuel for the work that is left, the schedule runs to the end. *)
Lemma run_nf (fuel : nat) st : work st ≤ fuel → nf step (run fuel st).
Proof.
  revert st. induction fuel as [|fuel IH]; intros st Hfuel; simpl.
  - apply nf_step. unfold work in Hfuel.
    by destruct (inbox st), (pending st); simpl in Hfuel; try lia.
  - destruct (tick st) as [st'|] eqn:E; simpl; [|by apply tick_None].
    apply IH. apply tick_step, step_work in E. lia.
Qed.

(** With nothing pending, the schedule answers the inbox in its order. *)
Lemma run_fifo this reqs (out : list (Request * option (RA + RO))) (fuel : nat) :
  2 * length reqs ≤ fuel →
  run fuel {| controller := this; inbox := reqs; pending := []; outbox := out |}
  = {| controller := this; inbox := []; pending := [];
       outbox := out ++ (answer this <$> reqs) |}.
Proof.
  revert out fuel. induction reqs as [|req reqs IH]; intros out fuel Hfuel.
  { destruct fuel; simpl; by rewrite app_nil_r. }
  destruct fuel as [|[|fuel]]; simpl in Hfuel; [lia..|].
  rewrite fmap_cons, cons_middle, app_assoc. unfold answer at 1.
  cbn [run tick pending inbox controller outbox from_option].
  destruct (dispatch this routes req) as [promise|];
    cbn [run tick pending inbox controller outbox from_option].
  - apply IH. lia.
  - apply (IH _ (S fuel)). lia.
Qed.

(** The responses of a server that stands still. *)
Lemma ServerInv_nf (svc : Svc) reqs st :
  ServerInv svc reqs st → nf step st →
  outbox st ≡ₚ answer (new svc) <$> reqs.
Proof.
  intros [_ Hreqs _ Hout] [Hin Hcalls]%nf_step.
  rewrite Hin, Hcalls in Hreqs; simpl in Hreqs. rewrite <-Hreqs.
  apply (Forall_fmap_ext_1 id) in Hout. rewrite list_fmap_id in Hout.
  rewrite <-list_fmap_compose. by rewrite Hout at 1.
Qed.

End Schedule.

(** ** Every interleaving *)

Section Interleavings.
Context {Svc RA RO : Type} `{!ProductsService Svc RA RO}.

Implicit Types (st : Server Svc RA RO) (reqs : list Request).

(** C19: along every interleaving the controller is the one constructed
    at start, and no request is lost, duplicated or invented: the requests
    waiting, pending and answered are, together, the requests received. *)
Theorem server_conserves_requests (svc : Svc) reqs st :
  rtc step (boot svc reqs) st →
  controller st = new svc ∧
  inbox st ++ (pending st).*1 ++ (outbox st).*1 ≡ₚ reqs.
Proof. by intros [??]%ServerInv_rtc. Qed.

(** C20: every interleaving ends: from no state is there an infinite
    sequence of steps. *)
Theorem server_terminates st : sn step st.
Proof. apply (sn_measure step work), step_work. Qed.

(** C21: an interleaving of [n] steps uses up [n] of the work its first
    state has left, so no interleaving takes more than two steps for each
    request waiting and one for each call pending. *)
Theorem server_run_length (n : nat) st st' :
  nsteps step n st st' → n + work st' ≤ work st.
Proof. apply (nsteps_measure step work), step_work. Qed.

(** C18: every request is answered: from every state the server reaches,
    it can run to the end, and wherever it stands still, the responses
    are, up to their order, the answers the requests received would get
    alone, one for each. *)
Theorem server_answers_every_request (svc : Svc) reqs st :
  rtc step (boot svc reqs) st →
  (∃ st', rtc step st st' ∧ nf step st') ∧
  (∀ st', rtc step st st' → nf step st' →
     outbox st' ≡ₚ answer (new svc) <$> reqs).
Proof.
  intros Hrun. split.
  - exists (run (work st) st). split; [apply run_rtc | by apply run_nf].
  - intros st' Hrun' Hnf. apply ServerInv_nf; [|done].
    apply ServerInv_rtc. by etrans.
Qed.

(** C22: the schedule in arrival order, with two units of fuel for each
    request, ends with nothing waiting or pending and with the answers in
    the order of the requests. *)
Theorem run_answers_in_order (svc : Svc) reqs (fuel : nat) :
  2 * length reqs ≤ fuel →
  run fuel (boot svc reqs)
  = {| controller := new svc; inbox := []; pending := [];
       outbox := answer (new svc) <$> reqs |}.
Proof. apply (run_fifo (new svc) reqs []). Qed.

End Interleavings.

(** ** Over a service that meets the contract *)

Section Contract.
Context {Svc : Type}.
Context `{!ProductsService Svc (Outcome (list Product)) (Outcome Product)}.
Context `{!ProductQueryService Svc}.

(** C7: whatever the interleaving, a response is the response to a
    request that was received, and it is the one the specification
    prescribes for that request: concurrent requests do not affect each
    other's answers. *)
Theorem server_responses_meet_spec (svc : Svc) (reqs : list Request)
    (st : Server Svc _ _) (req : Request)
    (ans : option (Outcome (list Product) + Outcome Product)) :
  rtc step (boot svc reqs) st → (req, ans) ∈ outbox st →
  req ∈ reqs ∧ api_spec (new svc) req ans.
Proof.
  intros [_ Hreqs _ Hout]%ServerInv_rtc Hresp. split.
  - rewrite <-Hreqs, !elem_of_app. right; right.
    by apply (list_elem_of_fmap_2 fst) in Hresp.
  - apply (proj1 (Forall_forall _ _) Hout) in Hresp. injection Hresp as ->.
    apply apiP.
Qed.

(** C8: when the server stands still, whatever the interleaving that led
    there, every request received has its response, and the response is
    the one the specification prescribes for it. *)
Theorem server_answers_meet_spec (svc : Svc) (reqs : list Request)
    (st : Server Svc _ _) (req : Request) :
  rtc step (boot svc reqs) st → nf step st → req ∈ reqs →
  ∃ ans, (req, ans) ∈ outbox st ∧ api_spec (new svc) req ans.
Proof.
  intros Hrun Hnf Hreq. exists (dispatch (new svc) routes req).
  split; [|apply apiP].
  rewrite (ServerInv_nf svc reqs st) by (by try apply ServerInv_rtc).
  by apply (list_elem_of_fmap_2 (answer (new svc))).
Qed.

End Contract.

(** ** Witnesses *)

(** The example shop receives a search, a lookup and a request that no
    route serves. *)
Definition mugTraffic : list Request :=
  [mugSearch; getTwo;
   {| reqMethod := "POST"; reqPath := ["products"]; reqQuery := ∅ |}].

Definition mugServer :
    Server (Outcome (list Product)) (Outcome (list Product)) (Outcome Product) :=
  boot (Resolved mugs) mugTraffic.

Lemma server_conserves_requests_witness :
  controller (run 3 mugServer) = new (Resolved mugs) ∧
  inbox (run 3 mugServer) ++ (pending (run 3 mugServer)).*1
    ++ (outbox (run 3 mugServer)).*1 ≡ₚ mugTraffic.
Proof. apply server_conserves_requests, run_rtc. Defined.

Lemma server_run_length_witness :
  1 + work (run 1 mugServer) ≤ work mugServer.
Proof. by apply server_run_length, nsteps_once, tick_step. Defined.

Lemma server_answers_every_request_witness :
  (∃ st', rtc step mugServer st' ∧ nf step st') ∧
  (∀ st', rtc step mugServer st' → nf step st' →
     outbox st' ≡ₚ answer (new (Resolved mugs)) <$> mugTraffic).
Proof.
  by apply (server_answers_every_request (Resolved mugs) mugTraffic mugServer).
Defined.

Lemma run_answers_in_order_witness :
  run 6 mugServer
  = {| controller := new (Resolved mugs); inbox := []; pending := [];
       outbox := answer (new (Resolved mugs)) <$> mugTraffic |}.
Proof. apply run_answers_in_order. simpl. lia. Defined.

Lemma server_responses_meet_spec_witness :
  getTwo ∈ mugTraffic ∧
  api_spec (new (Resolved mugs)) getTwo (Some (inr (Resolved blueMug))).
Proof.
  apply (server_responses_meet_spec (Resolved mugs) mugTraffic (run 6 mugServer));
    [apply run_rtc|].
  unfold mugServer. rewrite run_fifo by (simpl; lia).
  by apply (list_elem_of_lookup_2 _ 1).
Defined.

Lemma server_answers_meet_spec_witness :
  ∃ ans, (getTwo, ans) ∈ outbox (run 6 mugServer) ∧
         api_spec (new (Resolved mugs)) getTwo ans.
Proof.
  apply (server_answers_meet_spec (Resolved mugs) mugTraffic);
    [apply run_rtc | by apply run_nf | by apply (list_elem_of_lookup_2 _ 1)].
Defined.

(** ** Responses out of order *)

(** The interleavings are more than the schedule: when the lookup is
    handled before the search, the responses leave in another order than
    the requests came in. *)
Example mugServer_out_of_order :
  ∃ st, rtc step mugServer st ∧ nf step st ∧
        (outbox st).*1 ≠ (outbox (run 6 mugServer)).*1.
Proof.
  eexists. split_and!.
  - unfold mugServer, mugTraffic.
    eapply rtc_l; [by eapply (step_handle _ [mugSearch] getTwo [_] _ [] [])|].
    eapply rtc_l; [by eapply (step_settle _ _ [] getTwo _ [] [])|].
    eapply rtc_l; [by eapply (step_handle _ [] mugSearch [_] _ [] [_])|].
    eapply rtc_l; [by eapply (step_settle _ _ [] mugSearch _ [] [_])|].
    eapply rtc_l; [by eapply (step_unrouted _ [] _ [] [] [_; _])|].
    done.
  - by apply nf_step.
  - by intros [=].
Qed.
