(* ===== verification/Ingestion.v ===== *)
(** * Ingestion: the catalogue changes while requests are served

    The products are read-only for the controller, but not constant: the
    specification leaves their creation and update to a catalogue
    ingestion process outside the repository.  This file adds that
    process to the server of [Server] as steps of the environment:

    - [serve]: a step of the server ([Server.step]); an update of the
      data behind the service by the ingestion, which the controller sees
      through the service it was constructed over; or the read of a
      pending call taking place, on the data as they are then.  What one
      update may do is the parameter [update], a relation on services.

    A pending call may thus be read when its handler runs or at any later
    moment until it settles, and its response reflects the catalogue as
    it was at one of these moments.  The theorems: the service changes by
    updates only; no request is lost; and every response is the one the
    specification prescribes on the service as it was at a state the run
    passed, between the start and the state where the response is
    observed. *)

From stdpp Require Import gmap.
From S2P Require Import Prelude Controller Routes Http.
From S2P Require Import QuerySpec Catalog Endpoints Api Server.

(** The routing is used through its lemmas only. *)
#[local] Arguments dispatch : simpl never.

Section Serve.
Context {Svc RA RO : Type} `{!ProductsService Svc RA RO}.
Context (update : relation Svc).

Implicit Types (this : ProductsController Svc) (req : Request).
Implicit Types (st : Server Svc RA RO) (reqs : list Request) (svc : Svc).

(** ** The steps *)

Inductive serve : relation (Server Svc RA RO) :=
| serve_step st st' : step st st' → serve st st'
| serve_ingest this svc' reqs calls out :
    update (productsService this) svc' →
    serve {| controller := this; inbox := reqs;
             pending := calls; outbox := out |}
          {| controller := new svc'; inbox := reqs;
             pending := calls; outbox := out |}
| serve_read this reqs l1 req promise promise' l2 out :
    dispatch this routes req = Some promise' →
    serve {| controller := this; inbox := reqs;
             pending := l1 ++ (req, promise) :: l2; outbox := out |}
          {| controller := this; inbox := reqs;
             pending := l1 ++ (req, promise') :: l2; outbox := out |}.

(** ** The invariant *)

(** [resp] is the answer to its request by the controller as it was at a
    state that the run from [st0] to [st] passed. *)
Definition answered_during st0 st (resp : Request * option (RA + RO)) : Prop :=
  ∃ st', rtc serve st0 st' ∧ rtc serve st' st ∧
         resp = answer (controller st') resp.1.

Record ServeInv svc reqs st : Prop := {
  serve_run : rtc serve (boot svc reqs) st;
  serve_service : rtc update svc (productsService (controller st));
  serve_conserved : inbox st ++ (pending st).*1 ++ (outbox st).*1 ≡ₚ reqs;
  serve_pending :
    Forall (λ call, answered_during (boot svc reqs) st (call.1, Some call.2))
      (pending st);
  serve_outbox : Forall (answered_during (boot svc reqs) st) (outbox st)
}.

(** An answer given during a run is one given during every longer run. *)
Lemma answered_during_mono st0 st st' resp :
  serve st st' → answered_during st0 st resp → answered_during st0 st' resp.
Proof.
  intros Hserve (st1 & Hrun1 & Hrun2 & Hresp).
  exists st1. split_and!; [done | by eapply rtc_r | done].
Qed.

(** What the controller answers at the last state but one of a run. *)
Lemma answered_during_now st0 st st' req ans :
  rtc serve st0 st → serve st st' → dispatch (controller st) routes req = ans →
  answered_during st0 st' (req, ans).
Proof. intros Hrun Hserve <-. exists st. split_and!; [done | by apply rtc_once | done]. Qed.

Lemma ServeInv_boot svc reqs : ServeInv svc reqs (boot svc reqs).
Proof. split; simpl; [done | done | by rewrite app_nil_r | done..]. Qed.

(** The service changes by updates only. *)
Lemma serve_service_update st st' :
  serve st st' →
  productsService (controller st') = productsService (controller st) ∨
  update (productsService (controller st)) (productsService (controller st')).
Proof. destruct 1 as [?? []| |]; simpl; eauto. Qed.

Lemma ServeInv_serve svc reqs st st' :
  ServeInv svc reqs st → serve st st' → ServeInv svc reqs st'.
Proof.
  intros [Hrun Hsvc Hreqs Hcalls Hout] Hserve.
  assert (∀ req ans, dispatch (controller st) routes req = ans →
            answered_during (boot svc reqs) st' (req, ans)) as Hnow
    by (intros; by eapply answered_during_now).
  apply (Forall_impl _
           (λ call, answered_during (boot svc reqs) st' (call.1, Some call.2)))
    in Hcalls; [|intros call; by apply answered_during_mono].
  apply (Forall_impl _ (answered_during (boot svc reqs) st')) in Hout;
    [|intros resp; by apply answered_during_mono].
  split; [by eapply rtc_r | by destruct (serve_service_update _ _ Hserve) as [-> | ?];
                              [|eapply rtc_r] | ..];
    clear Hrun Hsvc; destruct Hserve as [?? []| |]; simpl in *;
    rewrite ?fmap_app, ?fmap_cons, ?Forall_app, ?Forall_cons, ?Forall_nil in *;
    simpl in *; try (rewrite <-Hreqs; solve_Permutation); intuition eauto.
Qed.

Lemma ServeInv_rtc svc reqs st :
  rtc serve (boot svc reqs) st → ServeInv svc reqs st.
Proof.
  apply (rtc_invariant serve); [apply ServeInv_serve | apply ServeInv_boot].
Qed.

(** ** Without updates *)

(** Under an ingestion that never updates, the server is the server of
    [Server]: a read finds what the handler found, and the states reached
    are those [Server.step] reaches. *)
Section NoUpdate.
Context (Hnone : ∀ svc svc', ¬ update svc svc').

Lemma serve_no_update svc reqs st st' :
  ServerInv svc reqs st → serve st st' → step st st' ∨ st' = st.
Proof using Hnone.
  intros [Hthis _ Hcalls _] Hserve.
  destruct Hserve as [| ????? Hup%Hnone
                     |this reqs' l1 req promise promise' l2 out Hread];
    [by left | done | right]; simpl in *.
  apply Forall_app in Hcalls as [_ [Hcall _]%Forall_cons]; simpl in *.
  do 3 f_equal. congruence.
Qed.

Lemma serve_no_update_rtc svc reqs st :
  rtc serve (boot svc reqs) st → rtc step (boot svc reqs) st.
Proof using Hnone.
  apply (rtc_invariant serve); [|done]. intros st1 st2 Hrun Hserve.
  destruct (serve_no_update svc reqs st1 st2) as [Hstep| ->];
    [by apply ServerInv_rtc | done | by eapply rtc_r | done].
Qed.

End NoUpdate.

End Serve.

(** ** Over a service that meets the contract *)

Section Contract.
Context {Svc : Type}.
Context `{!ProductsService Svc (Outcome (list Product)) (Outcome Product)}.
Context `{!ProductQueryService Svc}.
Context (update : relation Svc).

(** C23: while the catalogue is ingested, the service changes by the
    updates of the ingestion only, the controller never writes to it; and
    every response is the response to a request that was received, the one
    the specification prescribes on a version of the catalogue that the
    updates led to since the server started: the version the controller
    served at a state that the run passed on its way to the state where
    the response is observed. *)
Theorem ingestion_responses_meet_spec (svc : Svc) (reqs : list Request)
    (st : Server Svc _ _) :
  rtc (serve update) (boot svc reqs) st →
  rtc update svc (productsService (controller st)) ∧
  ∀ req ans, (req, ans) ∈ outbox st →
    req ∈ reqs ∧ ∃ svc', rtc update svc svc' ∧ api_spec (new svc') req ans ∧
      ∃ st', rtc (serve update) (boot svc reqs) st' ∧
             rtc (serve update) st' st ∧
             productsService (controller st') = svc'.
Proof.
  intros [_ Hsvc Hreqs _ Hout]%ServeInv_rtc. split; [done|].
  intros req ans Hresp. split.
  - rewrite <-Hreqs, !elem_of_app. right; right.
    by apply (list_elem_of_fmap_2 fst) in Hresp.
  - apply (proj1 (Forall_forall _ _) Hout) in Hresp as (st' & Hrun & Hrun' & [= ->]).
    exists (productsService (controller st')). rewrite new_productsService.
    split_and!; [by apply ServeInv_rtc in Hrun as [] | apply apiP | by exists st'].
Qed.

End Contract.

(** ** Witnesses *)

(** A third mug is added to the example catalogue while a lookup for it
    waits. *)
Definition greenMug : Product :=
  {| productId := "3"; productName := "Green Mug"; productPrice := 1100;
     productMarketplace := "A" |}.

Definition getThree : Request :=
  {| reqMethod := "GET"; reqPath := ["products"; "3"]; reqQuery := ∅ |}.

(** An update appends a product to the catalogue. *)
Definition appends : relation (Outcome (list Product)) :=
  λ rows rows', ∃ cat p, rows = Resolved cat ∧ rows' = Resolved (cat ++ [p]).

Definition restocked :
    Server (Outcome (list Product)) (Outcome (list Product)) (Outcome Product) :=
  {| controller := new (Resolved (mugs ++ [greenMug])); inbox := [];
     pending := [];
     outbox := [(getThree, Some (inr (Resolved greenMug)))] |}.

Lemma restocked_reachable :
  rtc (serve appends) (boot (Resolved mugs) [getThree]) restocked.
Proof.
  eapply rtc_l; [apply serve_ingest; by exists mugs, greenMug|].
  eapply rtc_l;
    [apply serve_step; by eapply (step_handle _ [] getThree [] _ [] [])|].
  eapply rtc_l;
    [apply serve_step; by eapply (step_settle _ [] [] getThree _ [] [])|].
  done.
Qed.

(** The same response when the handler runs before the update and the
    read takes place after it. *)
Example restocked_by_late_read :
  rtc (serve appends) (boot (Resolved mugs) [getThree]) restocked.
Proof.
  eapply rtc_l;
    [apply serve_step; by eapply (step_handle _ [] getThree [] _ [] [])|].
  eapply rtc_l; [apply serve_ingest; by exists mugs, greenMug|].
  eapply rtc_l; [by eapply (serve_read _ _ _ [] getThree _ _ [] [])|].
  eapply rtc_l;
    [apply serve_step; by eapply (step_settle _ [] [] getThree _ [] [])|].
  done.
Qed.

Lemma ingestion_responses_meet_spec_witness :
  rtc appends (Resolved mugs) (productsService (controller restocked)) ∧
  ∀ req ans, (req, ans) ∈ outbox restocked →
    req ∈ [getThree] ∧
    ∃ svc', rtc appends (Resolved mugs) svc' ∧ api_spec (new svc') req ans ∧
      ∃ st', rtc (serve appends) (boot (Resolved mugs) [getThree]) st' ∧
             rtc (serve appends) st' restocked ∧
             productsService (controller st') = svc'.
Proof.
  apply (ingestion_responses_meet_spec appends (Resolved mugs) [getThree] restocked).
  apply restocked_reachable.
Defined.

(** The lookup that finds the third mug after the update finds nothing
    when it is handled before. *)
Example getThree_before_update :
  answer (new (Resolved mugs)) getThree = (getThree, Some (inr (Rejected NotFound))) ∧
  answer (new (Resolved (mugs ++ [greenMug]))) getThree
  = (getThree, Some (inr (Resolved greenMug))).
Proof. split; by vm_compute. Qed.
